(** * Contrastive training pairs for topic vectors

    A verification development for
    [src/create_training_samples/create_topic_vector_training_samples.py].

    The function of interest is [create_training_pairs]: it collects the
    samples of every topic but the positive one in an interleaved order, pairs
    every positive sample with every negative one and returns either all the
    pairs or a random sample of them.

    The development has two layers.
    - A value layer ([Module Pairs]), in which Python lists are Rocq lists and
      the function runs in a small monad that threads the process-wide random
      source and the log and may raise.
    - An object layer ([Module Objects]), in which lists and the dict are
      objects of a store that [append] mutates, to state what the call does to
      the objects it was given.  [create_training_pairs_refines] relates the
      two: on a store that holds the pool, the object layer computes what the
      value layer computes.

    [Module Spec] writes the interleaving and the candidate enumeration in
    the words of the specification, to compare them with the loops of the
    source. *)

From Stdlib Require Import ZArith Ascii String Lia PrimFloat.
From stdpp Require Import base option list.
From Equations Require Import Equations.

Local Open Scope nat_scope.

(** ** The Python runtime the source relies on *)

Module Py.

(** Messages of the log records and of the exceptions, one constructor per
    f-string of the source with the values it interpolates. *)
Inductive message : Type :=
| NoPositiveSamples (tid_positive : Z)
    (* "No positive samples found for topic ID {tid_positive}." *)
| NoNonEmptyNegatives (tid_positive : Z)
    (* "No non-empty negative sample lists found for topic ID {tid_positive}." *)
| NegativeNumSamples (num_samples : Z)
    (* "num_samples ({num_samples}) is negative. Returning empty list." *)
| MoreThanPossible (num_samples : Z) (total_possible_pairs : nat)
    (* "Requested num_samples (..) is greater than total possible pairs (..). ..." *)
| MaxOfEmpty
    (* builtin max() on an empty iterable *)
| SampleOutOfRange.
    (* random.sample: "Sample larger than population or is negative" *)

Inductive exn : Type :=
| ValueError (m : message)
| IndexError    (* a list index out of range *)
| TypeError.    (* an object of the wrong kind *)

Inductive level : Type := ERROR | WARNING.

(** The process-wide random source: the raw draws still to come.  An
    exhausted source keeps answering 0.  Every state of the module's generator
    gives such a stream, not every stream comes from a state of it: what is
    proved below holds for every stream, and nothing is claimed about which
    streams exist. *)
Definition rng : Type := list nat.

Record world : Type := World { random_state : rng; logged : list (level * message) }.

(** Computations over a state [S] that may raise.  The value layer runs on
    the [world], the object layer on the object store and the [world]. *)
Definition M (S A : Type) : Type := S -> (exn + A) * S.

Definition ret {S A} (a : A) : M S A := fun s => (inr a, s).

Definition bind {S A B} (m : M S A) (k : A -> M S B) : M S B :=
  fun s => match m s with
           | (inl e, s') => (inl e, s')
           | (inr a, s') => k a s'
           end.

Definition raise {S A} (e : exn) : M S A := fun s => (inl e, s).

(** [logger.error], [logger.warning] *)
Definition log (l : level) (m : message) : M world unit :=
  fun w => (inr tt, World (random_state w) (logged w ++ [(l, m)])).

(** [randbelow n]: a number below [n], read off the next raw draw. *)
Definition randbelow (n : nat) : M world nat :=
  fun w => match random_state w with
           | [] => (inr 0, w)
           | r :: g => (inr (r mod n), World g (logged w))
           end.

Declare Scope py_scope.
Delimit Scope py_scope with py.
Notation "x <- c ;; k" := (bind c (fun x => k))
  (at level 100, c at next level, right associativity) : py_scope.
Notation "c ;;; k" := (bind c (fun _ => k))
  (at level 100, right associativity) : py_scope.

(** [for x in xs: body] over an accumulator. *)
Definition for_each {A S} (xs : list A) (body : S -> A -> S) (init : S) : S :=
  fold_left body xs init.

(** [range(n)] *)
Definition range (n : nat) : list nat := seq 0 n.

(** Builtin [max] over the lengths of a sequence of lists: raises on an
    empty sequence. *)
Definition max_len {S A} (ls : list (list A)) : M S nat :=
  match ls with
  | [] => raise (ValueError MaxOfEmpty)
  | l :: ls' => ret (for_each ls' (fun m l' => Nat.max m (length l')) (length l))
  end.

(** The length of the longest list, 0 when there is none: what [max_len]
    returns on a non-empty sequence. *)
Definition longest {A} (ls : list (list A)) : nat :=
  foldr Nat.max 0 (length <$> ls).

(** The selection loop of [random.sample]:
    [for i in range(k): j = randbelow(n-i); result[i] = pool[j];
     pool[j] = pool[n-i-1]].  [i] is the round and [n] the length of the
    population.  (For large populations the library tracks the selected
    positions in a set instead of moving elements in a pool; either way the
    result is read at positions that are drawn and pairwise distinct, which is
    all that is used below: see [sample_spec].) *)
Fixpoint sample_loop {A} (k i n : nat) (pool : list A) : M world (list A) :=
  match k with
  | 0 => ret []
  | S k' =>
      (j <- randbelow (n - i) ;;
       match pool !! j, pool !! (n - i - 1) with
       | Some x, Some y =>
           (rest <- sample_loop k' (S i) n (<[j := y]> pool) ;;
            ret (x :: rest))
       | _, _ => raise IndexError
       end)%py
  end.

(** [random.sample(population, k)]: [k] elements at distinct positions of
    the population, in selection order. *)
Definition sample {A} (population : list A) (k : Z) : M world (list A) :=
  let n := length population in
  if ((0 <=? k) && (k <=? Z.of_nat n))%Z
  then sample_loop (Z.to_nat k) 0 n population
  else raise (ValueError SampleOutOfRange).

(** [res] is read off [population] at the positions [idxs], no position
    twice. *)
Definition drawn_at {A} (population : list A) (idxs : list nat) (res : list A) : Prop :=
  NoDup idxs /\ Forall2 (fun x j => population !! j = Some x) res idxs.

(** The population with its position written on every element. *)
Definition tagged {A} (population : list A) : list (nat * A) :=
  imap (fun j x => (j, x)) population.

End Py.

Import Py.

(** ** The value layer *)

Module Pairs.

Definition pair : Type := (string * string)%type.

(** The topic pool, [Dict[int, List[str]]]: the items of the dict in its
    iteration order (insertion order). *)
Definition pool : Type := list (Z * list string).

(** Truth value of a list: non-empty. *)
Definition truthy {A} (l : list A) : bool :=
  match l with [] => false | _ :: _ => true end.

(** [[negs for tid, negs in all_samples.items() if tid != tid_positive and negs]] *)
Definition negative_lists (all_samples : pool) (tid_positive : Z) : list (list string) :=
  for_each all_samples
    (fun acc item =>
       let '(tid, negs) := item in
       if negb (tid =? tid_positive)%Z && truthy negs then acc ++ [negs] else acc)
    [].

(** [[
    for i in range(max_len):
        for neg_list in negative_lists:
            if i < len(neg_list):
                interleaved_negatives.append(neg_list[i])
    ]] *)
Definition interleave (max_len : nat) (negative_lists : list (list string)) : list string :=
  for_each (range max_len)
    (fun interleaved_negatives i =>
       for_each negative_lists
         (fun interleaved_negatives neg_list =>
            if i <? length neg_list
            then match neg_list !! i with
                 | Some x => interleaved_negatives ++ [x]
                 | None => interleaved_negatives
                 end
            else interleaved_negatives)
         interleaved_negatives)
    [].

(** [[
    for pos_sample in positive_samples:
        for neg_sample in interleaved_negatives:
            all_pairs.append((pos_sample, neg_sample))
    ]] *)
Definition combinations (positive_samples interleaved_negatives : list string) : list pair :=
  for_each positive_samples
    (fun all_pairs pos_sample =>
       for_each interleaved_negatives
         (fun all_pairs neg_sample => all_pairs ++ [(pos_sample, neg_sample)])
         all_pairs)
    [].

Definition create_training_pairs
    (positive_samples : list string) (all_samples : pool)
    (tid_positive : Z) (num_samples : Z) : M world (list pair) :=
  let negative_lists := negative_lists all_samples tid_positive in
  if negb (truthy positive_samples) then
    (log ERROR (NoPositiveSamples tid_positive) ;;;
     raise (ValueError (NoPositiveSamples tid_positive)))%py
  else if negb (truthy negative_lists) then
    (log ERROR (NoNonEmptyNegatives tid_positive) ;;;
     raise (ValueError (NoNonEmptyNegatives tid_positive)))%py
  else if (num_samples <? 0)%Z then
    (log WARNING (NegativeNumSamples num_samples) ;;;
     ret [])%py
  else
    (max_len <- max_len negative_lists ;;
     let interleaved_negatives := interleave max_len negative_lists in
     let all_pairs := combinations positive_samples interleaved_negatives in
     let total_possible_pairs := length all_pairs in
     if (num_samples <=? Z.of_nat total_possible_pairs)%Z then
       sample all_pairs num_samples
     else
       (log WARNING (MoreThanPossible num_samples total_possible_pairs) ;;;
        ret all_pairs))%py.

(** The values of [interleaved_negatives] and of [all_pairs] when the
    validations pass, [max_len] being the length of the longest negative
    list: the candidate pairs in their enumeration order. *)
Definition interleaved_negatives (all_samples : pool) (tid_positive : Z) : list string :=
  let negative_lists := negative_lists all_samples tid_positive in
  interleave (longest negative_lists) negative_lists.

Definition candidates (positive_samples : list string) (all_samples : pool)
    (tid_positive : Z) : list pair :=
  combinations positive_samples (interleaved_negatives all_samples tid_positive).

(** A pool the validations accept: the positive sequence is non-empty and
    some other topic has a representation. *)
Definition valid_pool (positive_samples : list string) (all_samples : pool)
    (tid_positive : Z) : Prop :=
  positive_samples <> []
  /\ exists tid negs, (tid, negs) ∈ all_samples /\ tid <> tid_positive /\ negs <> [].

(** [create_topic_vector_training_samples] calls it on the entry of the
    positive topic in the loaded pool; [topic_representations[tid]] raises
    [KeyError] on a missing key, which leaves nothing to run. *)
Definition lookup_topic (all_samples : pool) (tid : Z) : option (list string) :=
  snd <$> List.find (fun item => (fst item =? tid)%Z) all_samples.

Definition build_pairs (all_samples : pool) (tid : Z) (num_samples : Z)
  : option (M world (list pair)) :=
  (fun positive_samples =>
     create_training_pairs positive_samples all_samples tid num_samples)
    <$> lookup_topic all_samples tid.

(** A world to run examples in. *)
Definition world0 (g : rng) : world := World g [].

Definition example_pool : pool :=
  [(1%Z, ["p1"; "p2"]); (2%Z, ["n1"]); (3%Z, ["n2"; "n3"])]%string.

End Pairs.

(** ** The interleaving in the words of the specification

    "For round index i = 0, 1, 2, ..., visit each contributing topic in a
    fixed, stable order (the iteration order of the pool) and, if that topic's
    sequence has an element at index i, append it.  Continue until every
    contributing sequence is exhausted." *)

Module Spec.

(** The sequences of every topic other than the positive one that are
    non-empty, in the iteration order of the pool. *)
Definition contributing (topicPool : Pairs.pool) (positiveTopicId : Z) : list (list string) :=
  omap (fun topic : Z * list string =>
          if decide (topic.1 <> positiveTopicId /\ topic.2 <> [])
          then Some topic.2 else None)
       topicPool.

(** One round: the element at index [i] of each sequence that has one. *)
Definition visit {A} (i : nat) (seqs : list (list A)) : list A :=
  omap (fun s : list A => s !! i) seqs.

(** Every sequence is exhausted at index [i]. *)
Definition exhausted {A} (i : nat) (seqs : list (list A)) : bool :=
  forallb (fun s : list A => length s <=? i) seqs.

Definition remaining {A} (i : nat) (seqs : list (list A)) : nat :=
  foldr Nat.max 0 ((fun s : list A => length s - i) <$> seqs).

Equations round_robin_from {A} (i : nat) (seqs : list (list A)) : list A
  by wf (remaining i seqs) lt :=
  round_robin_from i seqs with Equations.Prop.Logic.inspect (exhausted i seqs) => {
    | exist _ true _ := [];
    | exist _ false live := visit i seqs ++ round_robin_from (S i) seqs }.
Next Obligation.
  clear round_robin_from. revert live. unfold exhausted, remaining.
  induction seqs as [|s seqs IH]; csimpl; [done|].
  destruct (Nat.leb_spec (length s) i) as [Hs|Hs]; simpl.
  - intros H. specialize (IH H). lia.
  - intros _. destruct (forallb (fun s0 : list A => length s0 <=? i) seqs) eqn:E.
    + assert (foldr Nat.max 0 ((fun s0 : list A => length s0 - S i) <$> seqs) = 0) as ->; [|lia].
      clear -E. induction seqs as [|s' seqs IH]; csimpl in *; [done|].
      apply andb_prop in E as [E1 E2]. apply Nat.leb_le in E1.
      rewrite IH by done. lia.
    + specialize (IH eq_refl). lia.
Qed.

Definition round_robin {A} (seqs : list (list A)) : list A :=
  round_robin_from 0 seqs.

(** "The full cross-product of the positive topic's sequence with the
    interleaved negative sequence, preserving (positive-sequence order, then
    interleaved-negative order)." *)
Definition cross_product (positives negatives : list string) : list (string * string) :=
  p ← positives; n ← negatives; [(p, n)].

Definition candidate_pairs (positives : list string) (topicPool : Pairs.pool)
    (positiveTopicId : Z) : list (string * string) :=
  cross_product positives (round_robin (contributing topicPool positiveTopicId)).

End Spec.

(** ** The object layer

    Python lists and dicts are objects: a variable holds a reference, and
    [append] changes the object every holder of the reference sees.  Here the
    call runs on a store of objects, so that what it does to the objects of its
    caller can be stated. *)

Module Objects.

(** A reference is a position in the store. *)
Abbreviation loc := nat.

(** Strings and tuples are immutable and stand for themselves. *)
Inductive value : Type :=
| Str (s : string)
| Tuple (a b : value)
| Ref (l : loc).

Inductive object : Type :=
| List (items : list value)
| Dict (items : list (Z * loc)).   (* key, reference to the list under it *)

Record heap : Type := Heap { objects : list object; outside : world }.

Definition O : Type -> Type := M heap.

(** Run a computation of the value layer, which does not touch objects. *)
Definition lift {A} (m : M world A) : O A :=
  fun h => let '(r, w') := m (outside h) in (r, Heap (objects h) w').

(** A new object, at the end of the store. *)
Definition alloc (o : object) : O loc :=
  fun h => (inr (length (objects h)), Heap (objects h ++ [o]) (outside h)).

Definition list_items (l : loc) : O (list value) :=
  fun h => match objects h !! l with
           | Some (List items) => (inr items, h)
           | _ => (inl TypeError, h)
           end.

(** [d.items()] *)
Definition dict_items (d : loc) : O (list (Z * loc)) :=
  fun h => match objects h !! d with
           | Some (Dict items) => (inr items, h)
           | _ => (inl TypeError, h)
           end.

(** [l.append(v)]: the object at [l] changes in place. *)
Definition append (l : loc) (v : value) : O unit :=
  fun h => match objects h !! l with
           | Some (List items) =>
               (inr tt, Heap (<[l := List (items ++ [v])]> (objects h)) (outside h))
           | _ => (inl TypeError, h)
           end.

(** [len(l)] *)
Definition len (l : loc) : O nat :=
  (items <- list_items l ;; ret (length items))%py.

(** [l[i]] *)
Definition getitem (l : loc) (i : nat) : O value :=
  (items <- list_items l ;;
   match items !! i with
   | Some v => ret v
   | None => raise IndexError
   end)%py.

Definition deref (v : value) : O loc :=
  match v with
  | Ref l => ret l
  | _ => raise TypeError
  end.

(** [for x in xs: body].  No loop of the source appends to the list it
    iterates over (it appends to a list made just before the loop), so the
    loop runs over the items the list has when the loop starts. *)
Fixpoint for_in {A} (xs : list A) (body : A -> O unit) : O unit :=
  match xs with
  | [] => ret tt
  | x :: xs' => (body x ;;; for_in xs' body)%py
  end.

(** [len(neg_list) for neg_list in negative_lists] and the builtin [max]
    over it. *)
Fixpoint lens (refs : list value) : O (list nat) :=
  match refs with
  | [] => ret []
  | r :: refs' =>
      (l <- deref r ;; n <- len l ;; ns <- lens refs' ;; ret (n :: ns))%py
  end.

Definition max_of (ns : list nat) : O nat :=
  match ns with
  | [] => raise (ValueError MaxOfEmpty)
  | n :: ns' => ret (for_each ns' Nat.max n)
  end.

(** [random.sample] "returns a new list containing elements from the
    population while leaving the original population unchanged". *)
Definition sample (population : loc) (k : Z) : O loc :=
  (items <- list_items population ;;
   res <- lift (Py.sample items k) ;;
   alloc (List res))%py.

(** [[negs for tid, negs in all_samples.items() if tid != tid_positive and negs]]:
    a new list of references to the lists of the pool. *)
Definition negative_lists (all_samples : loc) (tid_positive : Z) : O loc :=
  (negative_lists <- alloc (List []) ;;
   items <- dict_items all_samples ;;
   for_in items
     (fun '(tid, negs) =>
        if negb (tid =? tid_positive)%Z then
          (n <- len negs ;;
           if 0 <? n then append negative_lists (Ref negs) else ret tt)
        else ret tt) ;;;
   ret negative_lists)%py.

(** [interleaved_negatives = []], [max_len = max(...)] and the two nested
    loops that append to [interleaved_negatives]. *)
Definition interleave (negative_lists : loc) : O loc :=
  (interleaved_negatives <- alloc (List []) ;;
   neg_lists <- list_items negative_lists ;;
   ns <- lens neg_lists ;;
   max_len <- max_of ns ;;
   for_in (range max_len)
     (fun i =>
        neg_lists <- list_items negative_lists ;;
        for_in neg_lists
          (fun neg_list =>
             l <- deref neg_list ;;
             n <- len l ;;
             if i <? n then
               (x <- getitem l i ;; append interleaved_negatives x)
             else ret tt)) ;;;
   ret interleaved_negatives)%py.

(** [all_pairs = []] and the two nested loops that append to [all_pairs]. *)
Definition combinations (positive_samples interleaved_negatives : loc) : O loc :=
  (all_pairs <- alloc (List []) ;;
   pos_samples <- list_items positive_samples ;;
   for_in pos_samples
     (fun pos_sample =>
        neg_samples <- list_items interleaved_negatives ;;
        for_in neg_samples
          (fun neg_sample => append all_pairs (Tuple pos_sample neg_sample))) ;;;
   ret all_pairs)%py.

Definition create_training_pairs
    (positive_samples all_samples : loc) (tid_positive num_samples : Z) : O loc :=
  (negative_lists <- negative_lists all_samples tid_positive ;;
   n_positive <- len positive_samples ;;
   if n_positive =? 0 then
     (lift (log ERROR (NoPositiveSamples tid_positive)) ;;;
      raise (ValueError (NoPositiveSamples tid_positive)))
   else
   n_negative <- len negative_lists ;;
   if n_negative =? 0 then
     (lift (log ERROR (NoNonEmptyNegatives tid_positive)) ;;;
      raise (ValueError (NoNonEmptyNegatives tid_positive)))
   else if (num_samples <? 0)%Z then
     (lift (log WARNING (NegativeNumSamples num_samples)) ;;;
      alloc (List []))
   else
   interleaved_negatives <- interleave negative_lists ;;
   all_pairs <- combinations positive_samples interleaved_negatives ;;
   total_possible_pairs <- len all_pairs ;;
   if (num_samples <=? Z.of_nat total_possible_pairs)%Z then
     sample all_pairs num_samples
   else
     (lift (log WARNING (MoreThanPossible num_samples total_possible_pairs)) ;;;
      ret all_pairs))%py.

(** The objects the caller had, the first [n0] of the store, are as they
    were: [old]. *)
Definition kept (n0 : nat) (old : list object) (h : heap) : Prop :=
  n0 <= length (objects h) /\ take n0 (objects h) = old.

(** [m] keeps the caller's objects as they were and, when it returns,
    returns a value that satisfies [Q]. *)
Definition frames (n0 : nat) (old : list object) {A} (m : O A) (Q : A -> Prop) : Prop :=
  forall h, kept n0 old h ->
            kept n0 old (m h).2
            /\ match (m h).1 with inr a => Q a | inl _ => True end.

(** How the store holds the values of the value layer: a list of strings, a
    pair, a reference to a list of strings, an item of the pool. *)
Definition tuple_of (p : Pairs.pair) : value := Tuple (Str p.1) (Str p.2).

Definition holds_list (objs : list object) (l : loc) (strs : list string) : Prop :=
  objs !! l = Some (List (Str <$> strs)).

Definition refers (objs : list object) (r : value) (strs : list string) : Prop :=
  exists l, r = Ref l /\ holds_list objs l strs.

Definition holds_item (objs : list object) (item : Z * loc) (topic : Z * list string) : Prop :=
  item.1 = topic.1 /\ holds_list objs item.2 topic.2.

Definition holds_pool (objs : list object) (d : loc) (all_samples : Pairs.pool) : Prop :=
  exists items, objs !! d = Some (Dict items) /\ Forall2 (holds_item objs) items all_samples.

(** The result of the object layer is the result of the value layer: the
    same exception, or a reference to a list that holds the same pairs. *)
Definition same_result (objs : list object) (r : exn + loc) (rv : exn + list Pairs.pair)
  : Prop :=
  match r, rv with
  | inl e, inl e' => e = e'
  | inr l, inr pairs => objs !! l = Some (List (tuple_of <$> pairs))
  | _, _ => False
  end.

(** A store that holds the example pool: the three lists, then the dict. *)
Definition example_heap (g : rng) : heap :=
  Heap [ List [Str "p1"; Str "p2"];
         List [Str "n1"];
         List [Str "n2"; Str "n3"];
         Dict [(1%Z, 0); (2%Z, 1); (3%Z, 2)] ]%string
       (World g []).

End Objects.

(** ** The callers of [create_training_pairs]

    [create_topic_vector_training_samples] and
    [create_all_topic_vector_training_samples] call collaborators that are not
    part of the source at hand ([src.utils], [config.experiment_config]).  A
    call to a collaborator is answered by the environment, which may let it
    raise; the calls that returned are recorded in order. *)

Module Orchestration.
Import Pairs.

Inductive call : Type :=
| ValidateTopicRepresentationType (topic_representation_type : string)
| ValidatePairingType (pairing_type : string)
| LoadTopicRepresentations (topic_representation_type : string)
| SaveTopicVectorTrainingSamples (training_samples : list pair)
    (topic_representation_type pairing_type : string) (tid : Z).

(** What ends a run early: an exception of [create_training_pairs], a
    [KeyError] of a subscript, or whatever a collaborator raised. *)
Inductive failure : Type :=
| Raised (e : exn)
| KeyErrorTid (tid : Z)              (* topic_representations[tid] *)
| KeyErrorType (key : string)        (* TOPIC_REPRESENTATION_TYPE_NUM_SAMPLES[...] *)
| Collaborator (c : call) (what : string).

(** The environment answers a call in view of the calls completed so far:
    [Some what] when the call raises, for the calls that return nothing;
    the loaded pool or what was raised, for the loader. *)
Record environment : Type := Environment {
  answer : list call -> call -> option string;
  loaded : list call -> string -> string + pool
}.

Record state : Type := State { completed : list call; outside : world }.

Definition R (A : Type) : Type := state -> (failure + A) * state.

Definition ret {A} (a : A) : R A := fun s => (inr a, s).

Definition bind {A B} (m : R A) (k : A -> R B) : R B :=
  fun s => match m s with
           | (inl f, s') => (inl f, s')
           | (inr a, s') => k a s'
           end.

Definition fail {A} (f : failure) : R A := fun s => (inl f, s).

Declare Scope run_scope.
Delimit Scope run_scope with run.
Notation "x <- c ;; k" := (bind c (fun x => k))
  (at level 100, c at next level, right associativity) : run_scope.
Notation "c ;;; k" := (bind c (fun _ => k))
  (at level 100, right associativity) : run_scope.

(** A call to a collaborator that returns nothing. *)
Definition perform (env : environment) (c : call) : R unit :=
  fun s => match answer env (completed s) c with
           | Some what => (inl (Collaborator c what), s)
           | None => (inr tt, State (completed s ++ [c]) (outside s))
           end.

(** [load_topic_representations(topic_representation_type)] *)
Definition load_topic_representations (env : environment) (topic_representation_type : string)
  : R pool :=
  fun s => match loaded env (completed s) topic_representation_type with
           | inl what =>
               (inl (Collaborator (LoadTopicRepresentations topic_representation_type) what), s)
           | inr topic_representations =>
               (inr topic_representations,
                State (completed s ++ [LoadTopicRepresentations topic_representation_type])
                      (outside s))
           end.

(** A computation of the value layer: it sees the world only. *)
Definition lift {A} (m : M world A) : R A :=
  fun s => match m (outside s) with
           | (inl e, w') => (inl (Raised e), State (completed s) w')
           | (inr a, w') => (inr a, State (completed s) w')
           end.

(** [topic_representations[tid]] *)
Definition subscript (topic_representations : pool) (tid : Z) : R (list string) :=
  match lookup_topic topic_representations tid with
  | Some samples => ret samples
  | None => fail (KeyErrorTid tid)
  end.

Definition create_topic_vector_training_samples (env : environment)
    (topic_representation_type : string) (num_samples : Z) (tid : Z) (pairing_type : string)
  : R (list pair) :=
  (perform env (ValidateTopicRepresentationType topic_representation_type) ;;;
   perform env (ValidatePairingType pairing_type) ;;;
   topic_representations <- load_topic_representations env topic_representation_type ;;
   positive_samples <- subscript topic_representations tid ;;
   training_samples <-
     lift (create_training_pairs positive_samples topic_representations tid num_samples) ;;
   perform env (SaveTopicVectorTrainingSamples training_samples topic_representation_type
                  pairing_type tid) ;;;
   ret training_samples)%run.

(** The attributes of [ExperimentConfig] the batch reads. *)
Record ExperimentConfig : Type := {
  TOPIC_REPRESENTATION_TYPES : list string;
  TOPIC_REPRESENTATION_TYPE_NUM_SAMPLES : list (string * Z);   (* a dict *)
  TOPIC_IDS : list Z
}.

(** [config.TOPIC_REPRESENTATION_TYPE_NUM_SAMPLES[topic_representation_type]] *)
Definition num_samples_of (config : ExperimentConfig) (topic_representation_type : string)
  : R Z :=
  match List.find (fun item => String.eqb (fst item) topic_representation_type)
          (TOPIC_REPRESENTATION_TYPE_NUM_SAMPLES config) with
  | Some item => ret (snd item)
  | None => fail (KeyErrorType topic_representation_type)
  end.

(** [for x in xs: body], an exception ending the loop. *)
Fixpoint for_in {A} (xs : list A) (body : A -> R unit) : R unit :=
  match xs with
  | [] => ret tt
  | x :: xs' => (body x ;;; for_in xs' body)%run
  end.

Definition create_all_topic_vector_training_samples (env : environment)
    (config : ExperimentConfig) : R unit :=
  for_in (TOPIC_REPRESENTATION_TYPES config)
    (fun topic_representation_type =>
       num_samples <- num_samples_of config topic_representation_type ;;
       for_in (TOPIC_IDS config)
         (fun tid =>
            create_topic_vector_training_samples env topic_representation_type
              num_samples tid "against_random_topic_representation" ;;;
            ret tt))%run.

(** [main]: the batch on the configuration of the experiment. *)
Definition main (env : environment) (config : ExperimentConfig) : R unit :=
  create_all_topic_vector_training_samples env config.

(** The samples saved by a sequence of calls: type, pairing and topic of
    each save. *)
Definition saved (calls : list call) : list (string * string * Z) :=
  omap (fun c => match c with
                 | SaveTopicVectorTrainingSamples _ t p tid => Some (t, p, tid)
                 | _ => None
                 end) calls.

(** The jobs of the batch, in the order of its two loops. *)
Definition jobs (config : ExperimentConfig) : list (string * string * Z) :=
  t ← TOPIC_REPRESENTATION_TYPES config;
  tid ← TOPIC_IDS config;
  [(t, "against_random_topic_representation"%string, tid)].

(** The environment lets both validations pass, from the calls [cs] on. *)
Definition accepts (env : environment) (cs : list call)
    (topic_representation_type pairing_type : string) : Prop :=
  answer env cs (ValidateTopicRepresentationType topic_representation_type) = None
  /\ answer env (cs ++ [ValidateTopicRepresentationType topic_representation_type])
       (ValidatePairingType pairing_type) = None.

(** The calls completed once the pool is loaded. *)
Definition after_load (cs : list call) (topic_representation_type pairing_type : string)
  : list call :=
  cs ++ [ValidateTopicRepresentationType topic_representation_type;
         ValidatePairingType pairing_type;
         LoadTopicRepresentations topic_representation_type].

(** After the validations, the loader returns [topic_representations]. *)
Definition loads (env : environment) (cs : list call)
    (topic_representation_type pairing_type : string) (topic_representations : pool) : Prop :=
  loaded env (cs ++ [ValidateTopicRepresentationType topic_representation_type;
                     ValidatePairingType pairing_type])
    topic_representation_type
  = inr topic_representations.

(** The batch with other representation types, the rest of the configuration
    being the same. *)
Definition with_types (config : ExperimentConfig) (types : list string) : ExperimentConfig :=
  {| TOPIC_REPRESENTATION_TYPES := types;
     TOPIC_REPRESENTATION_TYPE_NUM_SAMPLES := TOPIC_REPRESENTATION_TYPE_NUM_SAMPLES config;
     TOPIC_IDS := TOPIC_IDS config |}.

(** An environment in which every call returns, the loader with the example
    pool; one that knows the representation type "words" only. *)
Definition example_environment : environment :=
  Environment (fun _ _ => None) (fun _ _ => inr example_pool).

Definition strict_environment : environment :=
  Environment
    (fun _ c =>
       match c with
       | ValidateTopicRepresentationType t =>
           if String.eqb t "words" then None else Some "invalid topic representation type"
       | ValidatePairingType p =>
           if String.eqb p "against_random_topic_representation" then None
           else Some "invalid pairing type"
       | _ => None
       end)%string
    (fun _ _ => inr example_pool).

Definition example_config : ExperimentConfig :=
  {| TOPIC_REPRESENTATION_TYPES := ["words"; "phrases"];
     TOPIC_REPRESENTATION_TYPE_NUM_SAMPLES := [("words", 4%Z); ("phrases", 2%Z)];
     TOPIC_IDS := [1%Z; 2%Z] |}%string.

Definition state0 (g : rng) : state := State [] (world0 g).

End Orchestration.

(** ** Scoring the generated summaries

    [src/evaluation/score_steered_newts_summaries.py] and
    [src/evaluation/score_prompted_newts_summaries.py].  The values come from
    [json.load]; the [Scorer] and the file are collaborators, answered by the
    environment. *)

Module Json.

(** What [json.load] returns (and what a scorer may return).  No function
    below goes through a value recursively, so no induction principle is
    asked for. *)
Local Unset Elimination Schemes.
Inductive pyval : Type :=
| PNone
| PBool (b : bool)
| PInt (z : Z)
| PFloat (x : PrimFloat.float)
| PStr (s : string)
| PList (items : list pyval)
| PDict (items : list (string * pyval)).   (* the items, in insertion order *)
Local Set Elimination Schemes.

Inductive pytype : Type := TNone | TBool | TInt | TFloat | TStr | TList | TDict.

(** [type(v)] *)
Definition type_of (v : pyval) : pytype :=
  match v with
  | PNone => TNone | PBool _ => TBool | PInt _ => TInt | PFloat _ => TFloat
  | PStr _ => TStr | PList _ => TList | PDict _ => TDict
  end.

Abbreviation dict := (list (string * pyval)).

(** [d.get(k)] found or not. *)
Fixpoint dict_get (k : string) (d : dict) : option pyval :=
  match d with
  | [] => None
  | (k', v) :: d' => if String.eqb k' k then Some v else dict_get k d'
  end.

(** [k in d] *)
Definition dict_in (k : string) (d : dict) : bool :=
  match dict_get k d with Some _ => true | None => false end.

(** [d[k] = v]: the value under an existing key is replaced where it is, a
    new key goes to the end. *)
Fixpoint dict_set (k : string) (v : pyval) (d : dict) : dict :=
  match d with
  | [] => [(k, v)]
  | (k', v') :: d' => if String.eqb k' k then (k', v) :: d' else (k', v') :: dict_set k v d'
  end.

(** [d.keys()] *)
Definition keys (d : dict) : list string := fst <$> d.

Inductive pyexn : Type :=
| AttributeError    (* v.get on a value that is not a dict *)
| TypeError         (* k in v, v[k] on a value that does not support it;
                       os.path.join on None *)
| KeyError (k : string)
| OSError (e : string).   (* open(path, 'w') *)

(** [k in v] for a string [k]: key of a dict, element of a list, substring of
    a string; the other values are not iterable. *)
Definition contains (k : string) (v : pyval) : pyexn + bool :=
  match v with
  | PDict d => inr (dict_in k d)
  | PList items =>
      inr (existsb (fun item => match item with
                                | PStr s => String.eqb s k
                                | _ => false
                                end) items)
  | PStr s => inr (match String.index 0 k s with Some _ => true | None => false end)
  | _ => inl TypeError
  end.

(** [v[k]] for a string [k]. *)
Definition subscript (v : pyval) (k : string) : pyexn + pyval :=
  match v with
  | PDict d => match dict_get k d with Some x => inr x | None => inl (KeyError k) end
  | _ => inl TypeError
  end.

(** [len(v)], [v.items()] where the source has made sure that [v] is a
    dict. *)
Definition items (v : pyval) : pyexn + dict :=
  match v with
  | PDict d => inr d
  | _ => inl AttributeError
  end.

(** [v.get(k, default)] *)
Definition get (v : pyval) (k : string) (default : pyval) : pyexn + pyval :=
  match v with
  | PDict d => inr (match dict_get k d with Some x => x | None => default end)
  | _ => inl AttributeError
  end.

(** [os.path.join(a, b)] of [posixpath], where [a] comes from [os.getenv]. *)
Definition path_join (a : option string) (b : string) : pyexn + string :=
  match a with
  | None => inl TypeError
  | Some a =>
      inr (if String.prefix "/" b then b
           else if String.eqb a "" then b
           else match String.get (String.length a - 1) a with
                | Some "/"%char => a ++ b
                | _ => a ++ "/" ++ b
                end)%string
  end.

End Json.

Module Scoring.
Import Json.

(** [scorer.score_individual_text(text=, tid1=, tid2=, reference_text1=,
    reference_text2=)] *)
Record scorer_call : Type := ScoreIndividualText {
  text : string;
  tid1 : pyval;
  tid2 : pyval;
  reference_text1 : pyval;
  reference_text2 : pyval
}.

(** [Scorer()] *)
Inductive init_outcome : Type :=
| Initialized
| InitImportError (e : string)
| InitException (e : string).

(** [open(input_file_path)] and [json.load(f)] *)
Inductive read_outcome : Type :=
| FileNotFoundError
| JSONDecodeError (e : string)
| ReadException (e : string)
| Loaded (input_data : pyval).

(** The scorer answers a call in view of the calls made so far: the score
    dict, or the exception it raises.  [open_output] is [open(path, 'w')]: the
    error it raises, if any. *)
Record environment : Type := Environment {
  scorer_init : init_outcome;
  read : string -> read_outcome;
  score : list scorer_call -> scorer_call -> string + pyval;
  getenv : string -> option string;
  open_output : string -> option string
}.

Inductive level : Type := DEBUG | INFO | WARNING | ERROR.

(** The log records: one constructor per event the two files log, with the
    values the message interpolates (for an event both files log, the wording
    differs in places). *)
Inductive message : Type :=
| Starting (input_file_path : string)
| ScorerInitialized
| ScorerImportFailed
| ScorerInitFailed (e : string)
| DataLoaded (input_file_path : string)
| MissingRequiredKeys
| GeneratedSummariesNotADict (found : pytype)
| InputFileNotFound (input_file_path : string)
| JSONDecodeFailed (input_file_path e : string)
| UnexpectedReadError (e : pyexn + string)
| StartingToScore (total_articles : nat)
| ProcessingArticle (processed total_articles : nat) (article_idx_str : string)
| SummariesNotADict (article_idx_str : string)
| TextNotAString (article_idx_str key : string) (found : pytype)
| ErrorScoring (article_idx_str key e : string)
| Finished (articles : nat)
(* the prompted file only *)
| VariationsNotADict (article_idx_str behavior_name : string)
| NeutralAlreadyProcessed (article_idx_str behavior_name : string)
| VariationSeenAgain (article_idx_str variation_key behavior_name : string)
| VariationNotADict (article_idx_str behavior_name variation_key : string)
| PromptedTextNotAString (article_idx_str behavior_name variation_key : string)
    (found : pytype)
| ScoringSummary (article_idx_str variation_key behavior_name : string)
| Saved (output_json_path : string).

(** The calls the scorer has answered, the log, and the files [json.dump]
    has written. *)
Record state : Type := State {
  calls : list scorer_call;
  records : list (level * message);
  written : list (string * pyval)
}.

Definition S (A : Type) : Type := state -> (pyexn + A) * state.

Definition ret {A} (a : A) : S A := fun s => (inr a, s).

Definition bind {A B} (m : S A) (k : A -> S B) : S B :=
  fun s => match m s with
           | (inl e, s') => (inl e, s')
           | (inr a, s') => k a s'
           end.

(** An operation of [Json] outside of any [try]: its exception propagates. *)
Definition lift {A} (r : pyexn + A) : S A := fun s => (r, s).

Definition log (l : level) (m : message) : S unit :=
  fun s => (inr tt, State (calls s) (records s ++ [(l, m)]) (written s)).

(** The call of the scorer inside its [try]: what it returned or raised. *)
Definition call_scorer (env : environment) (c : scorer_call) : S (string + pyval) :=
  fun s => (inr (score env (calls s) c), State (calls s ++ [c]) (records s) (written s)).

(** [with open(path, 'w') as f: json.dump(v, f)] *)
Definition dump (env : environment) (path : string) (v : pyval) : S unit :=
  fun s => match open_output env path with
           | Some e => (inl (OSError e), s)
           | None => (inr tt, State (calls s) (records s) (written s ++ [(path, v)]))
           end.

Declare Scope scoring_scope.
Delimit Scope scoring_scope with scoring.
Notation "x <- c ;; k" := (bind c (fun x => k))
  (at level 100, c at next level, right associativity) : scoring_scope.
Notation "c ;;; k" := (bind c (fun _ => k))
  (at level 100, right associativity) : scoring_scope.

(** [for x in xs: body] over the locals the body assigns. *)
Fixpoint for_in {A L} (xs : list A) (body : L -> A -> S L) (locals : L) : S L :=
  match xs with
  | [] => ret locals
  | x :: xs' => (locals' <- body locals x ;; for_in xs' body locals')%scoring
  end.

(** Steps 1 and 2 of both files: the scorer, then the input data under
    [try].  Every exception is caught, logged, and turned into [None]; what
    comes out otherwise is the input data.  [import_error] tells whether the
    file has a handler of its own for [ImportError]. *)
Definition load_input (import_error : bool) (env : environment) (input_file_path : string)
  : S (option pyval) :=
  (log INFO (Starting input_file_path) ;;;
   match scorer_init env with
   | InitImportError e =>
       if import_error then (log ERROR ScorerImportFailed ;;; ret None)
       else (log ERROR (ScorerInitFailed e) ;;; ret None)
   | InitException e => (log ERROR (ScorerInitFailed e) ;;; ret None)
   | Initialized =>
       log INFO ScorerInitialized ;;;
       match read env input_file_path with
       | FileNotFoundError => (log ERROR (InputFileNotFound input_file_path) ;;; ret None)
       | JSONDecodeError e => (log ERROR (JSONDecodeFailed input_file_path e) ;;; ret None)
       | ReadException e => (log ERROR (UnexpectedReadError (inr e)) ;;; ret None)
       | Loaded input_data =>
           log INFO (DataLoaded input_file_path) ;;;
           match contains "experiment_information" input_data with
           | inl e => (log ERROR (UnexpectedReadError (inl e)) ;;; ret None)
           | inr has_information =>
               (* [A not in d or B not in d]: [B] is looked for only if [A] is there *)
               match (if has_information then contains "generated_summaries" input_data
                      else inr false) with
               | inl e => (log ERROR (UnexpectedReadError (inl e)) ;;; ret None)
               | inr false => (log ERROR MissingRequiredKeys ;;; ret None)
               | inr true =>
                   match subscript input_data "generated_summaries" with
                   | inl e => (log ERROR (UnexpectedReadError (inl e)) ;;; ret None)
                   | inr (PDict _) => ret (Some input_data)
                   | inr other =>
                       (log ERROR (GeneratedSummariesNotADict (type_of other)) ;;; ret None)
                   end
               end
           end
       end
   end)%scoring.

(** Step 3 and the head of step 4, past the [try]: the subscripts of
    [input_data] for [output_data], [len] and [items]. *)
Definition unpack (input_data : pyval) : S (pyval * dict) :=
  (experiment_information <- lift (subscript input_data "experiment_information") ;;
   generated_summaries <- lift (subscript input_data "generated_summaries") ;;
   articles <- lift (items generated_summaries) ;;
   ret (experiment_information, articles))%scoring.

(** [output_data] *)
Definition output_data (experiment_information : pyval) (generated_summaries : dict)
    (scored_summaries : dict) : pyval :=
  PDict [("experiment_information", experiment_information);
         ("generated_summaries", PDict generated_summaries);
         ("scored_summaries", PDict scored_summaries)]%string.

End Scoring.

(** *** [score_steered_newts_summaries.py] *)

Module Steered.
Import Json Scoring.

(** The body of the loop over [summaries_to_score.items()]. *)
Definition score_summary (env : environment) (article_idx_str : string)
    (tid1 tid2 ref1 ref2 : pyval)
    (article_scores : dict) (item : string * pyval) : S dict :=
  let '(strength_str, generated_text) := item in
  match generated_text with
  | PStr text =>
      (outcome <- call_scorer env (ScoreIndividualText text tid1 tid2 ref1 ref2) ;;
       match outcome with
       | inr score_dict => ret (dict_set strength_str score_dict article_scores)
       | inl e =>
           log ERROR (ErrorScoring article_idx_str strength_str e) ;;;
           ret (dict_set strength_str PNone article_scores)
       end)%scoring
  | other =>
      (log WARNING (TextNotAString article_idx_str strength_str (type_of other)) ;;;
       ret (dict_set strength_str PNone article_scores))%scoring
  end.

(** The body of the loop over [input_data['generated_summaries'].items()];
    the locals are [processed_articles] and [output_data['scored_summaries']]. *)
Definition score_article (env : environment) (total_articles : nat)
    (locals : nat * dict) (item : string * pyval) : S (nat * dict) :=
  let '(processed_articles, scored_summaries) := locals in
  let '(article_idx_str, article_data) := item in
  let processed_articles := processed_articles + 1 in
  (log INFO (ProcessingArticle processed_articles total_articles article_idx_str) ;;;
   tid1 <- lift (get article_data "tid1" PNone) ;;
   tid2 <- lift (get article_data "tid2" PNone) ;;
   ref1 <- lift (get article_data "summary1" PNone) ;;
   ref2 <- lift (get article_data "summary2" PNone) ;;
   summaries_to_score <- lift (get article_data "summaries" (PDict [])) ;;
   match summaries_to_score with
   | PDict summaries =>
       article_scores <-
         for_in summaries (score_summary env article_idx_str tid1 tid2 ref1 ref2) [] ;;
       ret (processed_articles,
            dict_set article_idx_str (PDict article_scores) scored_summaries)
   | _ =>
       log WARNING (SummariesNotADict article_idx_str) ;;;
       ret (processed_articles, dict_set article_idx_str PNone scored_summaries)
   end)%scoring.

Definition score_newts_summaries (env : environment) (input_file_path : string) : S pyval :=
  (input <- load_input false env input_file_path ;;
   match input with
   | None => ret PNone
   | Some input_data =>
       input <- unpack input_data ;;
       let '(experiment_information, generated_summaries) := input in
       let total_articles := length generated_summaries in
       log INFO (StartingToScore total_articles) ;;;
       locals <- for_in generated_summaries (score_article env total_articles) (0, []) ;;
       let '(_, scored_summaries) := locals in
       log INFO (Finished (length scored_summaries)) ;;;
       ret (output_data experiment_information generated_summaries scored_summaries)
   end)%scoring.

Definition file_path : string :=
  "toxicity_vectors_with_prompts/toxicity_summaries_llama3_3b_NEWTS_test_100_articles_words_20250515_155443.json".

Definition main (env : environment) : S unit :=
  let results_path := getenv env "NEWTS_SUMMARIES_PATH" in
  let scores_path := getenv env "SCORES_PATH" in
  (input_json_path <- lift (path_join results_path file_path) ;;
   scored_summaries <- score_newts_summaries env input_json_path ;;
   output_json_path <- lift (path_join scores_path file_path) ;;
   dump env output_json_path scored_summaries)%scoring.

End Steered.

(** *** [score_prompted_newts_summaries.py] *)

Module Prompted.
Import Json Scoring.

(** The body of the loop over [variations_dict.items()]; the locals are
    [flat_article_scores] and [processed_neutral_for_this_article]. *)
Definition score_variation (env : environment) (article_idx_str behavior_name : string)
    (tid1 tid2 ref1 ref2 : pyval)
    (locals : dict * bool) (item : string * pyval) : S (dict * bool) :=
  let '(flat_article_scores, processed_neutral) := locals in
  let '(variation_key, prompt_and_summary_dict) := item in
  if String.eqb variation_key "neutral" && processed_neutral then
    (log DEBUG (NeutralAlreadyProcessed article_idx_str behavior_name) ;;;
     ret locals)%scoring
  else if negb (String.eqb variation_key "neutral")
          && dict_in variation_key flat_article_scores then
    (log WARNING (VariationSeenAgain article_idx_str variation_key behavior_name) ;;;
     ret locals)%scoring
  else
    match prompt_and_summary_dict with
    | PDict _ =>
        (generated_text <- lift (get prompt_and_summary_dict "summary" PNone) ;;
         match generated_text with
         | PStr text =>
             log DEBUG (ScoringSummary article_idx_str variation_key behavior_name) ;;;
             outcome <- call_scorer env (ScoreIndividualText text tid1 tid2 ref1 ref2) ;;
             match outcome with
             | inr score_dict =>
                 ret (dict_set variation_key score_dict flat_article_scores,
                      if String.eqb variation_key "neutral" then true
                      else processed_neutral)
             | inl e =>
                 log ERROR (ErrorScoring article_idx_str variation_key e) ;;;
                 ret (if dict_in variation_key flat_article_scores
                      then flat_article_scores
                      else dict_set variation_key PNone flat_article_scores,
                      processed_neutral)
             end
         | other =>
             log WARNING (PromptedTextNotAString article_idx_str behavior_name
                            variation_key (type_of other)) ;;;
             ret (if dict_in variation_key flat_article_scores
                  then flat_article_scores
                  else dict_set variation_key PNone flat_article_scores,
                  processed_neutral)
         end)%scoring
    | _ =>
        (log WARNING (VariationNotADict article_idx_str behavior_name variation_key) ;;;
         ret (if dict_in variation_key flat_article_scores
              then flat_article_scores
              else dict_set variation_key PNone flat_article_scores,
              processed_neutral))%scoring
    end.

(** The body of the loop over [summaries_by_behavior.items()]. *)
Definition score_behavior (env : environment) (article_idx_str : string)
    (tid1 tid2 ref1 ref2 : pyval)
    (locals : dict * bool) (item : string * pyval) : S (dict * bool) :=
  let '(behavior_name, variations_dict) := item in
  match variations_dict with
  | PDict variations =>
      for_in variations
        (score_variation env article_idx_str behavior_name tid1 tid2 ref1 ref2) locals
  | _ =>
      (log WARNING (VariationsNotADict article_idx_str behavior_name) ;;;
       ret locals)%scoring
  end.

(** The body of the loop over [input_data['generated_summaries'].items()]. *)
Definition score_article (env : environment) (total_articles : nat)
    (locals : nat * dict) (item : string * pyval) : S (nat * dict) :=
  let '(processed_articles_count, scored_summaries) := locals in
  let '(article_idx_str, article_content) := item in
  let processed_articles_count := processed_articles_count + 1 in
  (log INFO (ProcessingArticle processed_articles_count total_articles article_idx_str) ;;;
   tid1 <- lift (get article_content "tid1" PNone) ;;
   tid2 <- lift (get article_content "tid2" PNone) ;;
   ref1 <- lift (get article_content "original_summary1" PNone) ;;
   ref2 <- lift (get article_content "original_summary2" PNone) ;;
   summaries_by_behavior <- lift (get article_content "summaries" (PDict [])) ;;
   match summaries_by_behavior with
   | PDict behaviors =>
       locals <-
         for_in behaviors (score_behavior env article_idx_str tid1 tid2 ref1 ref2)
           ([], false) ;;
       let '(flat_article_scores, _) := locals in
       ret (processed_articles_count,
            dict_set article_idx_str (PDict flat_article_scores) scored_summaries)
   | _ =>
       log WARNING (SummariesNotADict article_idx_str) ;;;
       ret (processed_articles_count, dict_set article_idx_str (PDict []) scored_summaries)
   end)%scoring.

Definition score_newts_summaries (env : environment) (input_file_path : string) : S pyval :=
  (input <- load_input true env input_file_path ;;
   match input with
   | None => ret PNone
   | Some input_data =>
       input <- unpack input_data ;;
       let '(experiment_information, generated_summaries) := input in
       let total_articles := length generated_summaries in
       log INFO (StartingToScore total_articles) ;;;
       locals <- for_in generated_summaries (score_article env total_articles) (0, []) ;;
       let '(_, scored_summaries) := locals in
       log INFO (Finished (length scored_summaries)) ;;;
       ret (output_data experiment_information generated_summaries scored_summaries)
   end)%scoring.

Definition file_path : string :=
  "prompt_engineering/prompt_engineering_summaries_llama3_3b_NEWTS_train_250_articles_20250518_030833.json".

Definition main (env : environment) : S unit :=
  let results_path := getenv env "NEWTS_SUMMARIES_PATH" in
  let scores_path := getenv env "SCORES_PATH" in
  (input_json_path <- lift (path_join results_path file_path) ;;
   scored_summaries <- score_newts_summaries env input_json_path ;;
   output_json_path <- lift (path_join scores_path file_path) ;;
   dump env output_json_path scored_summaries ;;;
   log INFO (Saved output_json_path))%scoring.

End Prompted.

(** *** What the scoring functions are given, and what they ask of the scorer *)

Module Inputs.
Import Json Scoring.

(** The input the functions go on with: the scorer is there, and the file
    holds a dict with both keys, [generated_summaries] being a dict. *)
Definition usable (env : environment) (path : string)
    (experiment_information : pyval) (generated_summaries : dict) : Prop :=
  scorer_init env = Initialized /\
  exists input_data,
    read env path = Loaded (PDict input_data) /\
    dict_get "experiment_information" input_data = Some experiment_information /\
    dict_get "generated_summaries" input_data = Some (PDict generated_summaries).

Definition is_usable (env : environment) (path : string) : bool :=
  match scorer_init env, read env path with
  | Initialized, Loaded (PDict input_data) =>
      match dict_get "experiment_information" input_data,
            dict_get "generated_summaries" input_data with
      | Some _, Some (PDict _) => true
      | _, _ => false
      end
  | _, _ => false
  end.

Definition is_dict (v : pyval) : bool :=
  match v with PDict _ => true | _ => false end.

(** [article.get(k)] where [article] is a dict. *)
Definition field (k : string) (article : pyval) : pyval :=
  match article with
  | PDict d => match dict_get k d with Some x => x | None => PNone end
  | _ => PNone
  end.

(** [article.get('summaries', {})] as a dict, if it is one. *)
Definition summaries_of (article : pyval) : option dict :=
  match article with
  | PDict d =>
      match dict_get "summaries" d with
      | Some (PDict summaries) => Some summaries
      | Some _ => None
      | None => Some []
      end
  | _ => None
  end.

(** The calls of the scorer for the summaries of one article of the steered
    file: one per summary that is a string. *)
Definition requests (tid1 tid2 ref1 ref2 : pyval) (summaries : dict) : list scorer_call :=
  omap (fun item : string * pyval =>
          match item.2 with
          | PStr text => Some (ScoreIndividualText text tid1 tid2 ref1 ref2)
          | _ => None
          end) summaries.

Definition article_requests (article : pyval) : list scorer_call :=
  match summaries_of article with
  | Some summaries =>
      requests (field "tid1" article) (field "tid2" article)
        (field "summary1" article) (field "summary2" article) summaries
  | None => []
  end.

(** What [load_input] leaves: the input data of a usable file, or [None]
    with an ERROR record last; the scorer is not called. *)
Definition loaded (env : environment) (path : string) (s : state)
    (run : (pyexn + option pyval) * state) : Prop :=
  exists r s' new,
    run = (inr r, s')
    /\ calls s' = calls s /\ written s' = written s
    /\ records s' = (records s ++ new)%list
    /\ match r with
       | Some input_data =>
           exists d ei gs,
             input_data = PDict d /\ usable env path ei gs
             /\ read env path = Loaded (PDict d)
             /\ dict_get "experiment_information" d = Some ei
             /\ dict_get "generated_summaries" d = Some (PDict gs)
       | None =>
           is_usable env path = false /\ exists m old, new = (old ++ [(ERROR, m)])%list
       end.

(** What a summary leaves in the scores of its article, the scorer having
    answered the calls [cs] before: [None], unless it is a string and the
    scorer, called after [cs], returns a score for it. *)
Definition summary_score (env : environment) (tid1 tid2 ref1 ref2 : pyval)
    (cs : list scorer_call) (generated_text : pyval) : pyval :=
  match generated_text with
  | PStr text =>
      match score env cs (ScoreIndividualText text tid1 tid2 ref1 ref2) with
      | inr score_dict => score_dict
      | inl _ => PNone
      end
  | _ => PNone
  end.

(** One entry per summary, in order; the scorer answers the call for a
    summary after the calls [cs] and those for the summaries before it. *)
Definition summary_scores (env : environment) (tid1 tid2 ref1 ref2 : pyval)
    (cs : list scorer_call) (summaries : dict) : dict :=
  imap (fun i (item : string * pyval) =>
          (item.1,
           summary_score env tid1 tid2 ref1 ref2
             (cs ++ requests tid1 tid2 ref1 ref2 (take i summaries)) item.2))
       summaries.

(** What the steered file leaves for an article: [None] if its summaries are
    not a dict, the scores of its summaries otherwise. *)
Definition article_score (env : environment) (cs : list scorer_call) (article : pyval)
  : pyval :=
  match summaries_of article with
  | Some summaries =>
      PDict (summary_scores env (field "tid1" article) (field "tid2" article)
               (field "summary1" article) (field "summary2" article) cs summaries)
  | None => PNone
  end.

(** One entry per article, in order; the calls for an article come after
    [cs] and the calls for the articles before it. *)
Definition article_scores (env : environment) (cs : list scorer_call) (articles : dict)
  : dict :=
  imap (fun j (item : string * pyval) =>
          (item.1,
           article_score env
             (cs ++ flat_map (fun earlier : string * pyval => article_requests earlier.2)
                      (take j articles))
             item.2))
       articles.

(** The summaries of an article have distinct keys (as those of any dict). *)
Definition distinct_summary_keys (article : pyval) : Prop :=
  forall summaries, summaries_of article = Some summaries -> NoDup (keys summaries).

(** The locals of the prompted file's inner loops, before and after some
    entries with the keys [ks]: a key has an entry afterwards iff it had one
    or is among [ks]; an entry stays as it is, the one of "neutral" from the
    moment it has been scored; and "neutral" is marked as processed only with
    an entry. *)
Definition grows (ks : list string) (before after : dict * bool) : Prop :=
  (before.2 = true -> after.2 = true)
  /\ (after.2 = true -> dict_in "neutral" after.1 = true)
  /\ (forall k, dict_in k after.1 = true <-> dict_in k before.1 = true \/ k ∈ ks)
  /\ (forall k x, dict_get k before.1 = Some x ->
                 (k = "neutral"%string -> before.2 = true) ->
                 dict_get k after.1 = Some x).

(** The variation keys of one article of the prompted file, in the order the
    loops meet them. *)
Definition variation_keys (behaviors : dict) : list string :=
  flat_map (fun item : string * pyval =>
              match item.2 with
              | PDict variations => keys variations
              | _ => []
              end) behaviors.

(** What the prompted file leaves for an article: a dict with one entry per
    variation key. *)
Definition article_flattened (item entry : string * pyval) : Prop :=
  entry.1 = item.1 /\
  exists flat_article_scores,
    entry.2 = PDict flat_article_scores
    /\ forall k, k ∈ keys flat_article_scores
                 <-> match summaries_of item.2 with
                     | Some behaviors => k ∈ variation_keys behaviors
                     | None => False
                     end.

End Inputs.

(** *** Example inputs *)

Module ScoringExamples.
Import Json Scoring.

Definition information : pyval := PDict [("model", PStr "llama3_3b")]%string.

Definition steered_articles : dict :=
  [("0", PDict [("tid1", PInt 3); ("tid2", PInt 7);
                ("summary1", PStr "first reference"); ("summary2", PStr "second reference");
                ("summaries", PDict [("-1.0", PStr "a summary"); ("0.0", PInt 5);
                                     ("1.0", PStr "unscorable")])]);
   ("1", PDict [("summaries", PStr "none")])]%string.

Definition steered_input : pyval :=
  PDict [("experiment_information", information);
         ("generated_summaries", PDict steered_articles)]%string.

Definition prompted_behaviors : dict :=
  [("topic", PDict [("neutral", PDict [("summary", PStr "plain")]);
                    ("topic_tid1_encouraged", PDict [("summary", PStr "about one")])]);
   ("sentiment", PDict [("neutral", PDict [("summary", PStr "plain")]);
                        ("sentiment_positive_encouraged", PInt 5)])]%string.

Definition prompted_articles : dict :=
  [("0", PDict [("tid1", PInt 3); ("tid2", PInt 7);
                ("original_summary1", PStr "first reference");
                ("original_summary2", PStr "second reference");
                ("summaries", PDict prompted_behaviors)]);
   ("1", PDict [("summaries", PStr "none")])]%string.

Definition prompted_input : pyval :=
  PDict [("experiment_information", information);
         ("generated_summaries", PDict prompted_articles)]%string.

(** A scorer that counts the characters, and raises on one text. *)
Definition character_count (cs : list scorer_call) (c : scorer_call) : string + pyval :=
  if String.eqb (text c) "unscorable" then inl "no score"%string
  else inr (PDict [("characters"%string, PInt (Z.of_nat (String.length (text c))))]).

(** The second article is a string. *)
Definition mixed_articles : dict :=
  [("0", PDict [("summaries", PDict [("1.0", PStr "a summary")])]);
   ("1", PStr "an article");
   ("2", PDict [("summaries", PDict [("1.0", PStr "another summary")])])]%string.

Definition mixed_input : pyval :=
  PDict [("experiment_information", information);
         ("generated_summaries", PDict mixed_articles)]%string.

Definition files (path : string) : read_outcome :=
  if String.eqb path ("results/" ++ Steered.file_path) then Loaded steered_input
  else if String.eqb path ("results/" ++ Prompted.file_path) then Loaded prompted_input
  else if String.eqb path "mixed.json" then Loaded mixed_input
  else if String.eqb path "list.json"
       then Loaded (PList [PStr "experiment_information"; PStr "generated_summaries"])
  else FileNotFoundError.

Definition variables (scores_path : option string) (name : string) : option string :=
  if String.eqb name "NEWTS_SUMMARIES_PATH" then Some "results"%string
  else if String.eqb name "SCORES_PATH" then scores_path
  else None.

Definition scoring_environment (scores_path : option string) : environment :=
  Environment Initialized files character_count (variables scores_path) (fun _ => None).

(** The same, with a scorer that cannot be set up. *)
Definition no_scorer_environment (scores_path : option string) : environment :=
  Environment (InitException "no model") files character_count (variables scores_path)
    (fun _ => None).

Definition initial : state := State [] [] [].

End ScoringExamples.

(** ** What the call writes to the log, read off its result *)

Module PairsLog.
Import Pairs.

Definition expected_records (positive_samples : list string) (all_samples : pool)
    (tid_positive num_samples : Z) (result : exn + list pair) : list (level * message) :=
  match result with
  | inl (ValueError m) => [(ERROR, m)]
  | inl _ => []
  | inr _ =>
      if (num_samples <? 0)%Z then [(WARNING, NegativeNumSamples num_samples)]
      else if (Z.of_nat (length (candidates positive_samples all_samples tid_positive))
               <? num_samples)%Z
      then [(WARNING,
             MoreThanPossible num_samples
               (length (candidates positive_samples all_samples tid_positive)))]
      else []
  end.

End PairsLog.

(** ** Facts about the runtime *)

Module PyFacts.

Section Monad.
Context {S A B C : Type}.

Lemma bind_returns (m : M S A) (k : A -> M S B) (s s' : S) (a : A) :
  m s = (inr a, s') -> bind m k s = k a s'.
Proof. intros Hm. unfold bind. by rewrite Hm. Qed.

Lemma bind_assoc (m : M S A) (k1 : A -> M S B) (k2 : B -> M S C) (s : S) :
  bind (bind m k1) k2 s = bind m (fun a => bind (k1 a) k2) s.
Proof. unfold bind. by destruct (m s) as [[e|a] s']. Qed.
End Monad.

(** Run the first computation of a [bind] with the equation [H]. *)
Ltac run_bind H := etrans; [apply (bind_returns _ _ _ _ _ H)|]; cbv beta.

(** The same when the first computation returns by computation alone. *)
Ltac run_bind_refl := etrans; [eapply bind_returns; reflexivity|]; cbv beta.

Section Loops.
Context {A B : Type}.

Lemma for_each_ext (xs : list A) (f g : B -> A -> B) (init : B) :
  (forall acc x, x ∈ xs -> f acc x = g acc x) ->
  for_each xs f init = for_each xs g init.
Proof.
  unfold for_each. revert init.
  induction xs as [|x xs IH]; intros init Hfg; simpl; [reflexivity|].
  rewrite Hfg by left. apply IH. intros acc y Hy. apply Hfg. by right.
Qed.

(** A loop that only appends builds the concatenation of what each round
    appends. *)
Lemma for_each_append (xs : list A) (f : A -> list B) (init : list B) :
  for_each xs (fun acc x => acc ++ f x) init = init ++ flat_map f xs.
Proof.
  unfold for_each. revert init.
  induction xs as [|x xs IH]; intros init; simpl.
  - by rewrite app_nil_r.
  - by rewrite IH, <- app_assoc.
Qed.

Lemma for_each_max (ls : list (list A)) (m : nat) :
  for_each ls (fun m l => Nat.max m (length l)) m
  = Nat.max m (foldr Nat.max 0 (length <$> ls)).
Proof.
  unfold for_each. revert m.
  induction ls as [|l ls IH]; intros m; csimpl; [lia|].
  rewrite IH. lia.
Qed.
End Loops.

Lemma max_len_longest {S A} (ls : list (list A)) (w : S) :
  ls <> [] -> max_len ls w = (inr (longest ls), w).
Proof.
  destruct ls as [|l ls]; [done|]. intros _. unfold max_len, ret.
  by rewrite for_each_max.
Qed.

Lemma longest_bound {A} (ls : list (list A)) (l : list A) :
  l ∈ ls -> length l <= longest ls.
Proof.
  unfold longest. induction 1; csimpl in *; lia.
Qed.

(** *** [random.sample] *)

Section Sample.
Context {A : Type}.

(** A draw leaves the log alone and, asked for a number below a positive
    [n], answers one. *)
Lemma randbelow_spec (n : nat) (w : world) :
  exists j w', randbelow n w = (inr j, w')
               /\ logged w' = logged w /\ (0 < n -> j < n).
Proof.
  unfold randbelow. destruct w as [[|r g] lg]; simpl.
  - exists 0, (World [] lg). auto.
  - exists (r mod n), (World g lg). repeat split; [].
    intros Hn. apply Nat.mod_upper_bound. lia.
Qed.

(** One round of the loop takes one element out of the live prefix of the
    pool. *)
Lemma pool_step (pool : list A) (m j : nat) (x y : A) :
  j < S m -> S m <= length pool ->
  pool !! j = Some x -> pool !! m = Some y ->
  x :: take m (<[j := y]> pool) ≡ₚ take (S m) pool.
Proof.
  intros Hj Hm Hx Hy.
  rewrite (take_S_r pool m y Hy).
  destruct (decide (j = m)) as [->|Hne].
  - rewrite take_insert_ge by lia. assert (x = y) as -> by congruence.
    by rewrite Permutation_cons_append.
  - rewrite take_insert_lt by lia.
    assert (Hxt : take m pool !! j = Some x)
      by (rewrite lookup_take_lt by lia; done).
    rewrite (delete_Permutation _ _ _ Hxt) at 2.
    rewrite insert_take_drop by (rewrite length_take; lia).
    rewrite delete_take_drop.
    rewrite <- app_comm_cons. apply Permutation_skip.
    rewrite <- Permutation_middle, (Permutation_app_comm _ [y]). done.
Qed.

(** The loop, started in round [i] with [k] rounds to go, returns [k]
    elements taken out of the live prefix of the pool. *)
Lemma sample_loop_spec (n k i : nat) (pool : list A) (w : world) :
  length pool = n -> i + k <= n ->
  exists res rest w',
    sample_loop k i n pool w = (inr res, w')
    /\ logged w' = logged w
    /\ length res = k
    /\ res ++ rest ≡ₚ take (n - i) pool.
Proof.
  revert i pool w.
  induction k as [|k IH]; intros i pool w Hlen Hik; simpl.
  - exists [], (take (n - i) pool), w. by unfold ret.
  - unfold bind at 1.
    destruct (randbelow_spec (n - i) w) as (j & w1 & -> & Hlog1 & Hj).
    specialize (Hj ltac:(lia)).
    destruct (lookup_lt_is_Some_2 pool j ltac:(lia)) as [x Hx].
    destruct (lookup_lt_is_Some_2 pool (n - i - 1) ltac:(lia)) as [y Hy].
    rewrite Hx, Hy.
    destruct (IH (S i) (<[j := y]> pool) w1) as (res & rest & w2 & Hrun & Hlog2 & Hres & Hperm);
      [by rewrite length_insert | lia |].
    exists (x :: res), rest, w2. unfold bind, ret. rewrite Hrun.
    repeat split; [congruence | simpl; lia |].
    simpl. rewrite Hperm.
    replace (n - S i) with (n - i - 1) by lia.
    replace (n - i) with (S (n - i - 1)) at 2 by lia.
    apply pool_step; [lia | lia | done | done].
Qed.

(** The loop does not look at the elements: it commutes with a map. *)
Lemma sample_loop_fmap {B} (f : A -> B) (n k i : nat) (pool : list A) (w : world) :
  sample_loop k i n (f <$> pool) w
  = match sample_loop k i n pool w with
    | (inl e, w') => (inl e, w')
    | (inr res, w') => (inr (f <$> res), w')
    end.
Proof.
  revert i pool w. induction k as [|k IH]; intros i pool w; simpl; [done|].
  unfold bind at 1 3.
  destruct (randbelow (n - i) w) as [[e|j] w1]; [done|].
  rewrite !list_lookup_fmap.
  destruct (pool !! j) as [x|]; simpl; [|done].
  destruct (pool !! (n - i - 1)) as [y|]; simpl; [|done].
  unfold bind. rewrite <- list_fmap_insert, IH.
  by destruct (sample_loop k (S i) n (<[j:=y]> pool) w1) as [[e|res] w2].
Qed.
End Sample.

Section SampleSpec.
Context {A : Type}.

Lemma snd_tagged (population : list A) : snd <$> tagged population = population.
Proof.
  unfold tagged. rewrite fmap_imap. simpl.
  rewrite <- (list_fmap_id population) at 2. apply imap_const.
Qed.

Lemma fst_tagged (population : list A) :
  fst <$> tagged population = seq 0 (length population).
Proof.
  unfold tagged. rewrite fmap_imap.
  rewrite (imap_ext _ (fun j _ => id j)) by done.
  by rewrite imap_seq_0, list_fmap_id.
Qed.

Lemma length_tagged (population : list A) : length (tagged population) = length population.
Proof. apply length_imap. Qed.

Lemma elem_of_tagged (population : list A) (j : nat) (x : A) :
  (j, x) ∈ tagged population -> population !! j = Some x.
Proof.
  intros (j' & x' & Heq & Hlook)%elem_of_lookup_imap. by injection Heq as -> ->.
Qed.

(** Elements taken out of the tagged population are read at distinct
    positions of the population. *)
Lemma drawn_at_tagged (population : list A) (rt rest : list (nat * A)) :
  rt ++ rest ≡ₚ tagged population ->
  drawn_at population (fst <$> rt) (snd <$> rt).
Proof.
  intros Hperm. split.
  - assert (Hnd : NoDup (fst <$> (rt ++ rest))).
    { rewrite Hperm, fst_tagged. apply NoDup_seq. }
    rewrite fmap_app in Hnd. by apply NoDup_app in Hnd as [? _].
  - apply Forall2_fmap, Forall_Forall2_diag, Forall_forall.
    intros [j x] Hin. simpl. apply elem_of_tagged.
    rewrite <- Hperm. apply elem_of_app. by left.
Qed.

(** [random.sample] with [0 <= k <= len(population)] returns, without
    raising and without logging, [k] elements read at distinct positions
    of the population. *)
Lemma sample_spec (population : list A) (k : Z) (w : world) :
  (0 <= k <= Z.of_nat (length population))%Z ->
  exists res idxs w',
    sample population k w = (inr res, w')
    /\ logged w' = logged w
    /\ length res = Z.to_nat k
    /\ drawn_at population idxs res
    /\ exists rest, res ++ rest ≡ₚ population.
Proof.
  intros Hk. unfold sample.
  rewrite (proj2 (andb_true_iff _ _)) by (split; apply Z.leb_le; lia).
  destruct (sample_loop_spec (length population) (Z.to_nat k) 0 (tagged population) w)
    as (rt & rest & w' & Hrun & Hlog & Hlen & Hperm);
    [apply length_tagged | lia |].
  rewrite Nat.sub_0_r, firstn_all2 in Hperm by (by rewrite length_tagged).
  exists (snd <$> rt), (fst <$> rt), w'.
  rewrite <- (snd_tagged population) at 2. rewrite sample_loop_fmap, Hrun.
  repeat split; [done | by rewrite length_fmap | by eapply drawn_at_tagged.. |].
  exists (snd <$> rest). by rewrite <- fmap_app, Hperm, snd_tagged.
Qed.

(** [random.sample] does not look at the elements either. *)
Lemma sample_fmap {B} (f : A -> B) (population : list A) (k : Z) (w : world) :
  sample (f <$> population) k w
  = match sample population k w with
    | (inl e, w') => (inl e, w')
    | (inr res, w') => (inr (f <$> res), w')
    end.
Proof.
  unfold sample. rewrite length_fmap.
  destruct ((0 <=? k)%Z && (k <=? Z.of_nat (length population))%Z); [|done].
  apply sample_loop_fmap.
Qed.
End SampleSpec.

End PyFacts.

(** ** Facts about the value layer *)

Module PairsFacts.
Import Pairs PyFacts.

(** The list comprehension keeps the sequences of the topics other than the
    positive one that are non-empty, in pool order. *)
Lemma negative_lists_contributing (all_samples : pool) (tid_positive : Z) :
  negative_lists all_samples tid_positive = Spec.contributing all_samples tid_positive.
Proof.
  unfold negative_lists, Spec.contributing.
  rewrite (for_each_ext _ _
    (fun acc item =>
       acc ++ option_list (if decide (item.1 <> tid_positive /\ item.2 <> [])
                           then Some item.2 else None))).
  - rewrite for_each_append. simpl.
    induction all_samples as [|item all_samples IH]; [done|]. csimpl.
    rewrite IH. by destruct (decide _).
  - intros acc [tid negs] _. simpl.
    destruct (Z.eqb_spec tid tid_positive) as [->|Hne]; simpl.
    + rewrite decide_False by tauto. by rewrite app_nil_r.
    + destruct negs as [|n negs]; simpl.
      * rewrite decide_False by tauto. by rewrite app_nil_r.
      * by rewrite decide_True.
Qed.

Lemma elem_of_negative_lists (all_samples : pool) (tid_positive : Z) (negs : list string) :
  negs ∈ negative_lists all_samples tid_positive
  <-> exists tid, (tid, negs) ∈ all_samples /\ tid <> tid_positive /\ negs <> [].
Proof.
  rewrite negative_lists_contributing. unfold Spec.contributing.
  rewrite list_elem_of_omap. split.
  - intros ([tid negs'] & Hin & Hsome). simpl in Hsome.
    destruct (decide _) as [[? ?]|]; [|done].
    injection Hsome as ->. by exists tid.
  - intros (tid & Hin & Hne & Hnil). exists (tid, negs). split; [done|].
    simpl. by rewrite decide_True.
Qed.

(** The two nested loops append, round after round, the element at index
    [i] of each list that has one. *)
Lemma interleave_rounds (max_len : nat) (negative_lists : list (list string)) :
  interleave max_len negative_lists
  = flat_map (fun i => Spec.visit i negative_lists) (range max_len).
Proof.
  unfold interleave.
  rewrite (for_each_ext _ _ (fun acc i => acc ++ Spec.visit i negative_lists)).
  - by rewrite for_each_append.
  - intros acc i _.
    rewrite (for_each_ext _ _ (fun acc l => acc ++ option_list (l !! i))).
    + rewrite for_each_append. f_equal. unfold Spec.visit.
      induction negative_lists as [|l ls IH]; [done|]. csimpl.
      rewrite IH. by destruct (l !! i).
    + intros acc' l _. destruct (Nat.ltb_spec i (length l)) as [Hi|Hi].
      * destruct (l !! i); simpl; [done | by rewrite app_nil_r].
      * rewrite lookup_ge_None_2 by lia. simpl. by rewrite app_nil_r.
Qed.

Lemma exhausted_longest {A} (i : nat) (seqs : list (list A)) :
  Spec.exhausted i seqs = true <-> longest seqs <= i.
Proof.
  unfold Spec.exhausted, longest.
  induction seqs as [|s seqs IH]; csimpl; [split; [lia|done]|].
  rewrite andb_true_iff, Nat.leb_le, IH. lia.
Qed.

(** The rounds of the specification, from round [i] on, are the rounds the
    loop of the source still has to run. *)
Lemma round_robin_from_rounds {A} (i : nat) (seqs : list (list A)) :
  Spec.round_robin_from i seqs
  = flat_map (fun i => Spec.visit i seqs) (seq i (longest seqs - i)).
Proof.
  funelim (Spec.round_robin_from i seqs).
  - pose proof (proj1 (exhausted_longest _ _) e) as He.
    by replace (longest seqs - i) with 0 by lia.
  - assert (Hlt : i < longest seqs).
    { destruct (decide (i < longest seqs)); [done|].
      assert (Spec.exhausted i seqs = true) by (apply exhausted_longest; lia).
      congruence. }
    replace (longest seqs - i) with (S (longest seqs - S i)) by lia.
    simpl. by f_equal.
Qed.

Lemma interleave_round_robin (negative_lists : list (list string)) :
  interleave (longest negative_lists) negative_lists = Spec.round_robin negative_lists.
Proof.
  rewrite interleave_rounds. unfold Spec.round_robin, range.
  rewrite round_robin_from_rounds. by rewrite Nat.sub_0_r.
Qed.

(** The interleaving neither loses nor invents an element. *)
Lemma elem_of_interleave (negative_lists : list (list string)) (x : string) :
  x ∈ interleave (longest negative_lists) negative_lists
  <-> exists l, l ∈ negative_lists /\ x ∈ l.
Proof.
  rewrite interleave_rounds, list_elem_of_In, in_flat_map. unfold Spec.visit. split.
  - intros (i & _ & Hx). apply list_elem_of_In, list_elem_of_omap in Hx as (l & Hl & Hi).
    exists l. split; [done|]. by eapply list_elem_of_lookup_2.
  - intros (l & Hl & Hx). apply list_elem_of_lookup_1 in Hx as [i Hi].
    exists i. split.
    + apply in_seq. apply lookup_lt_Some in Hi.
      pose proof (longest_bound _ _ Hl). lia.
    + apply list_elem_of_In, list_elem_of_omap. by exists l.
Qed.

Lemma flat_map_app_Permutation {A B} (f g : A -> list B) (xs : list A) :
  flat_map (fun x => f x ++ g x) xs ≡ₚ flat_map f xs ++ flat_map g xs.
Proof.
  induction xs as [|x xs IH]; [done|]. simpl. rewrite IH.
  rewrite <- !app_assoc. apply Permutation_app_head.
  rewrite !app_assoc. apply Permutation_app_tail, Permutation_app_comm.
Qed.

Lemma flat_map_lookup_take {A} (l : list A) (m : nat) :
  flat_map (fun i => option_list (l !! i)) (seq 0 m) = take m l.
Proof.
  revert m. induction l as [|x l IH]; intros m.
  - rewrite take_nil. induction (seq 0 m); [done|]. by simpl.
  - destruct m as [|m]; [done|]. simpl. f_equal.
    rewrite <- fmap_S_seq, <- IH. clear.
    induction (seq 0 m) as [|i xs IH]; [done|]. csimpl. by rewrite IH.
Qed.

Lemma rounds_Permutation {A} (seqs : list (list A)) (m : nat) :
  flat_map (fun i => Spec.visit i seqs) (seq 0 m) ≡ₚ concat (take m <$> seqs).
Proof.
  induction seqs as [|s seqs IH]; csimpl.
  - induction (seq 0 m); [done|]. by simpl.
  - rewrite <- IH, <- flat_map_lookup_take, <- flat_map_app_Permutation.
    rewrite (flat_map_ext _ (fun i => option_list (s !! i) ++ Spec.visit i seqs));
      [done|].
    intros i. unfold Spec.visit. csimpl. by destruct (s !! i).
Qed.

(** The interleaving is a rearrangement of the negative lists put end to
    end. *)
Lemma interleave_Permutation (negative_lists : list (list string)) :
  interleave (longest negative_lists) negative_lists ≡ₚ concat negative_lists.
Proof.
  rewrite interleave_rounds. unfold range. rewrite rounds_Permutation.
  assert (take (longest negative_lists) <$> negative_lists = negative_lists) as ->; [|done].
  rewrite <- (list_fmap_id negative_lists) at 3.
  apply list_fmap_ext. intros _ l Hl%list_elem_of_lookup_2.
  apply take_ge. by apply longest_bound.
Qed.

(** The two nested loops enumerate the cross product, positive sample
    first. *)
Lemma combinations_prod (positive_samples interleaved_negatives : list string) :
  combinations positive_samples interleaved_negatives
  = flat_map (fun p => (fun n => (p, n)) <$> interleaved_negatives) positive_samples.
Proof.
  unfold combinations.
  rewrite (for_each_ext _ _
    (fun acc p => acc ++ ((fun n => (p, n)) <$> interleaved_negatives))).
  - by rewrite for_each_append.
  - intros acc p _.
    rewrite (for_each_append _ (fun n => [(p, n)])). f_equal.
Qed.

Lemma elem_of_combinations (ps ns : list string) (p n : string) :
  (p, n) ∈ combinations ps ns <-> p ∈ ps /\ n ∈ ns.
Proof.
  rewrite combinations_prod, (list_elem_of_In _ (p, n)), in_flat_map. split.
  - intros (p' & Hp & Hn). apply list_elem_of_In, list_elem_of_fmap in Hn as (n' & Heq & Hn').
    injection Heq as -> ->. split; [by apply list_elem_of_In | done].
  - intros [Hp Hn]. exists p. split; [by apply list_elem_of_In|].
    apply list_elem_of_In, list_elem_of_fmap. by exists n.
Qed.

Lemma combinations_cross_product (ps ns : list string) :
  combinations ps ns = Spec.cross_product ps ns.
Proof.
  rewrite combinations_prod. unfold Spec.cross_product.
  induction ps as [|p ps IH]; [done|]. csimpl. rewrite IH. f_equal.
Qed.

Lemma candidates_candidate_pairs (positive_samples : list string) (all_samples : pool)
    (tid_positive : Z) :
  candidates positive_samples all_samples tid_positive
  = Spec.candidate_pairs positive_samples all_samples tid_positive.
Proof.
  unfold candidates, interleaved_negatives, Spec.candidate_pairs.
  by rewrite interleave_round_robin, combinations_cross_product,
    negative_lists_contributing.
Qed.

Lemma NoDup_combinations (ps ns : list string) :
  NoDup ps -> NoDup ns -> NoDup (combinations ps ns).
Proof.
  rewrite combinations_prod. intros Hps Hns.
  induction Hps as [|p ps Hp Hps IH]; simpl; [constructor|].
  apply NoDup_app. split; [|split; [|done]].
  - apply NoDup_fmap_2; [|done]. by intros n n' [=].
  - intros [p' n'] Hin Hin'.
    apply list_elem_of_fmap in Hin as (n & [= -> ->] & _).
    apply list_elem_of_In, in_flat_map in Hin' as (p' & Hp' & Hin').
    apply list_elem_of_In, list_elem_of_fmap in Hin' as (n' & [= -> ->] & _).
    by apply list_elem_of_In in Hp'.
Qed.

Lemma length_combinations (ps ns : list string) :
  length (combinations ps ns) = length ps * length ns.
Proof.
  rewrite combinations_prod.
  induction ps as [|p ps IH]; [done|]. simpl.
  rewrite length_app, length_fmap, IH. lia.
Qed.

(** *** The five ways through [create_training_pairs] *)

Lemma valid_pool_negative_lists (positive_samples : list string) (all_samples : pool)
    (tid_positive : Z) :
  valid_pool positive_samples all_samples tid_positive
  <-> positive_samples <> [] /\ negative_lists all_samples tid_positive <> [].
Proof.
  unfold valid_pool. split; intros [Hpos Hneg]; (split; [done|]).
  - destruct Hneg as (tid & negs & Hin & Hne & Hnil).
    assert (Hin' : negs ∈ negative_lists all_samples tid_positive)
      by (apply elem_of_negative_lists; eauto).
    intros Heq. rewrite Heq in Hin'. by apply elem_of_nil in Hin'.
  - destruct (negative_lists all_samples tid_positive) as [|negs nl] eqn:E; [done|].
    assert (Hin : negs ∈ negative_lists all_samples tid_positive)
      by (rewrite E; left).
    apply elem_of_negative_lists in Hin as (tid & ?). by exists tid, negs.
Qed.

Lemma no_negatives_negative_lists (all_samples : pool) (tid_positive : Z) :
  (forall tid negs, (tid, negs) ∈ all_samples -> tid <> tid_positive -> negs = [])
  <-> negative_lists all_samples tid_positive = [].
Proof.
  split.
  - intros Hall.
    destruct (negative_lists all_samples tid_positive) as [|negs nl] eqn:E; [done|].
    assert (Hin : negs ∈ negative_lists all_samples tid_positive)
      by (rewrite E; left).
    apply elem_of_negative_lists in Hin as (tid & Hin & Hne & Hnil).
    by specialize (Hall _ _ Hin Hne).
  - intros Heq tid negs Hin Hne. destruct negs as [|n negs]; [done|].
    assert (Hin' : (n :: negs) ∈ negative_lists all_samples tid_positive)
      by (apply elem_of_negative_lists; eauto).
    rewrite Heq in Hin'. by apply elem_of_nil in Hin'.
Qed.

Section Runs.
Variables (positive_samples : list string) (all_samples : pool).
Variables (tid_positive num_samples : Z) (w : world).

Let run := create_training_pairs positive_samples all_samples tid_positive num_samples w.
Let total := length (candidates positive_samples all_samples tid_positive).

Lemma run_empty_positive :
  positive_samples = [] ->
  run = (inl (ValueError (NoPositiveSamples tid_positive)),
         World (random_state w) (logged w ++ [(ERROR, NoPositiveSamples tid_positive)])).
Proof. intros ->. reflexivity. Qed.

Lemma run_no_negatives :
  positive_samples <> [] -> negative_lists all_samples tid_positive = [] ->
  run = (inl (ValueError (NoNonEmptyNegatives tid_positive)),
         World (random_state w) (logged w ++ [(ERROR, NoNonEmptyNegatives tid_positive)])).
Proof.
  intros Hpos Hneg. subst run. unfold create_training_pairs. rewrite Hneg.
  by destruct positive_samples.
Qed.

Hypothesis valid : valid_pool positive_samples all_samples tid_positive.

Lemma run_negative_count :
  (num_samples < 0)%Z ->
  run = (inr [],
         World (random_state w) (logged w ++ [(WARNING, NegativeNumSamples num_samples)])).
Proof.
  intros Hn. apply valid_pool_negative_lists in valid as [Hpos Hneg].
  subst run. unfold create_training_pairs.
  destruct positive_samples; [done|].
  destruct (negative_lists all_samples tid_positive); [done|]. simpl.
  by rewrite (proj2 (Z.ltb_lt _ _) Hn).
Qed.

Lemma run_sample :
  (0 <= num_samples <= Z.of_nat total)%Z ->
  run = sample (candidates positive_samples all_samples tid_positive) num_samples w.
Proof.
  intros Hn. apply valid_pool_negative_lists in valid as [Hpos Hneg].
  subst run total. unfold create_training_pairs, candidates, interleaved_negatives in *.
  destruct positive_samples as [|p ps]; [done|].
  destruct (negative_lists all_samples tid_positive) as [|nl nls] eqn:E; [done|].
  cbn [truthy negb]. rewrite (proj2 (Z.ltb_ge _ _)) by lia.
  unfold bind. rewrite max_len_longest by done.
  by rewrite (proj2 (Z.leb_le _ _)) by lia.
Qed.

Lemma run_all_pairs :
  (Z.of_nat total < num_samples)%Z ->
  run = (inr (candidates positive_samples all_samples tid_positive),
         World (random_state w)
               (logged w ++ [(WARNING, MoreThanPossible num_samples total)])).
Proof.
  intros Hn. apply valid_pool_negative_lists in valid as [Hpos Hneg].
  subst run total. unfold create_training_pairs, candidates, interleaved_negatives in *.
  destruct positive_samples as [|p ps]; [done|].
  destruct (negative_lists all_samples tid_positive) as [|nl nls] eqn:E; [done|].
  cbn [truthy negb]. rewrite (proj2 (Z.ltb_ge _ _)) by lia.
  unfold bind at 1. rewrite max_len_longest by done.
  by rewrite (proj2 (Z.leb_gt _ _)) by lia.
Qed.
End Runs.

End PairsFacts.

(** ** What the call returns *)

Module Returns.
Import Pairs PyFacts PairsFacts.

Lemma elem_of_candidates (positive_samples : list string) (all_samples : pool)
    (tid_positive : Z) (p n : string) :
  (p, n) ∈ candidates positive_samples all_samples tid_positive
  <-> p ∈ positive_samples
      /\ exists tid negs, (tid, negs) ∈ all_samples /\ tid <> tid_positive /\ n ∈ negs.
Proof.
  unfold candidates, interleaved_negatives.
  rewrite elem_of_combinations, elem_of_interleave.
  split; intros [Hp Hn]; (split; [done|]).
  - destruct Hn as (negs & Hin & Hn).
    apply elem_of_negative_lists in Hin as (tid & Hin & Hne & _). eauto.
  - destruct Hn as (tid & negs & Hin & Hne & Hn). exists negs. split; [|done].
    apply elem_of_negative_lists. exists tid. repeat split; [done..|].
    intros ->. by apply elem_of_nil in Hn.
Qed.

Lemma drawn_at_elem_of {A} (population : list A) (idxs : list nat) (res : list A) (x : A) :
  drawn_at population idxs res -> x ∈ res -> x ∈ population.
Proof.
  intros [_ Hall] Hx.
  apply (Forall2_Forall_l _ (fun x => x ∈ population)) in Hall.
  - rewrite Forall_forall in Hall. by apply Hall.
  - apply Forall_forall. intros j _ y Hy. by eapply list_elem_of_lookup_2.
Qed.

(** Whatever the count, a returned list holds candidate pairs only, and no
    more of them than asked for. *)
Lemma returned_pairs (positive_samples : list string) (all_samples : pool)
    (tid_positive num_samples : Z) (w : world) (res : list pair) :
  (create_training_pairs positive_samples all_samples tid_positive num_samples w).1 = inr res ->
  valid_pool positive_samples all_samples tid_positive
  /\ (forall pr, pr ∈ res -> pr ∈ candidates positive_samples all_samples tid_positive)
  /\ (Z.of_nat (length res) <= Z.max 0 num_samples)%Z.
Proof.
  intros Hrun.
  destruct (decide (positive_samples = [])) as [Hpos|Hpos].
  { by rewrite run_empty_positive in Hrun. }
  destruct (decide (negative_lists all_samples tid_positive = [])) as [Hneg|Hneg].
  { by rewrite run_no_negatives in Hrun. }
  assert (valid : valid_pool positive_samples all_samples tid_positive)
    by (by apply valid_pool_negative_lists).
  split; [done|].
  set (total := length (candidates positive_samples all_samples tid_positive)).
  destruct (Z_lt_dec num_samples 0) as [Hn|Hn].
  { rewrite run_negative_count in Hrun by done. injection Hrun as <-.
    split; [|simpl; lia]. by intros pr Hpr%elem_of_nil. }
  destruct (Z_le_dec num_samples (Z.of_nat total)) as [Hle|Hgt].
  - rewrite run_sample in Hrun by (done || lia).
    destruct (sample_spec (candidates positive_samples all_samples tid_positive)
                num_samples w ltac:(fold total; lia))
      as (res' & idxs & w' & Hs & _ & Hlen & Hdrawn & _).
    rewrite Hs in Hrun. injection Hrun as <-. split; [|lia].
    intros pr Hpr. by eapply drawn_at_elem_of.
  - rewrite run_all_pairs in Hrun by (done || fold total; lia).
    injection Hrun as <-. split; [done|]. fold total. lia.
Qed.

End Returns.

(** ** Facts about the object layer *)

Module ObjectsFacts.
Import Objects PyFacts.

Section Frame.
Variables (n0 : nat) (old : list object).

Local Abbreviation frames := (frames n0 old).
Local Abbreviation kept := (kept n0 old).

Lemma frames_weaken {A} (m : O A) (P Q : A -> Prop) :
  frames m P -> (forall a, P a -> Q a) -> frames m Q.
Proof.
  intros Hm HPQ h Hh. destruct (Hm h Hh) as [Hk HP]. split; [done|].
  destruct (m h).1; [done | by apply HPQ].
Qed.

Lemma frames_ret {A} (a : A) (Q : A -> Prop) : Q a -> frames (ret a) Q.
Proof. by intros HQ h Hh. Qed.

Lemma frames_raise {A} (e : exn) (Q : A -> Prop) : frames (raise e) Q.
Proof. by intros h Hh. Qed.

Lemma frames_bind {A B} (m : O A) (k : A -> O B) (P : A -> Prop) (Q : B -> Prop) :
  frames m P -> (forall a, P a -> frames (k a) Q) -> frames (bind m k) Q.
Proof.
  intros Hm Hk h Hh. unfold bind.
  destruct (Hm h Hh) as [Hk1 HP]. destruct (m h) as [[e|a] h1]; [done|].
  by apply Hk.
Qed.

Lemma frames_lift {A} (m : M world A) : frames (lift m) (fun _ => True).
Proof.
  intros h Hh. unfold lift. destruct (m (outside h)) as [r w']. simpl.
  split; [done | by destruct r].
Qed.

(** A new object goes after the caller's. *)
Lemma frames_alloc (o : object) : frames (alloc o) (fun l => n0 <= l).
Proof.
  intros h [Hlen Hold]. unfold alloc, Objects.kept. simpl.
  rewrite length_app, take_app_le by done. repeat split; [lia | done | done].
Qed.

Lemma frames_list_items (l : loc) : frames (list_items l) (fun _ => True).
Proof.
  intros h Hh. unfold list_items. by destruct (objects h !! l) as [[?|?]|].
Qed.

Lemma frames_dict_items (d : loc) : frames (dict_items d) (fun _ => True).
Proof.
  intros h Hh. unfold dict_items. by destruct (objects h !! d) as [[?|?]|].
Qed.

(** Appending to an object that is not one of the caller's leaves the
    caller's as they were. *)
Lemma frames_append (l : loc) (v : value) :
  n0 <= l -> frames (append l v) (fun _ => True).
Proof.
  intros Hl h [Hlen Hold]. unfold append, Objects.kept.
  destruct (objects h !! l) as [[items|?]|]; simpl; [|done..].
  rewrite length_insert, take_insert_ge by done. done.
Qed.

Lemma frames_len (l : loc) : frames (len l) (fun _ => True).
Proof.
  unfold len. eapply frames_bind; [apply frames_list_items|].
  intros items _. by apply frames_ret.
Qed.

Lemma frames_getitem (l : loc) (i : nat) : frames (getitem l i) (fun _ => True).
Proof.
  unfold getitem. eapply frames_bind; [apply frames_list_items|].
  intros items _. destruct (items !! i); [by apply frames_ret | apply frames_raise].
Qed.

Lemma frames_deref (v : value) : frames (deref v) (fun _ => True).
Proof. destruct v; simpl; (by apply frames_ret) || apply frames_raise. Qed.

Lemma frames_for_in {A} (xs : list A) (body : A -> O unit) :
  (forall x, frames (body x) (fun _ => True)) ->
  frames (for_in xs body) (fun _ => True).
Proof.
  intros Hbody. induction xs as [|x xs IH]; simpl.
  - by apply frames_ret.
  - eapply frames_bind; [apply Hbody | by intros _ _].
Qed.

Lemma frames_lens (refs : list value) : frames (lens refs) (fun _ => True).
Proof.
  induction refs as [|r refs IH]; simpl; [by apply frames_ret|].
  eapply frames_bind; [apply frames_deref|]. intros l _.
  eapply frames_bind; [apply frames_len|]. intros n _.
  eapply frames_bind; [apply IH|]. intros ns _. by apply frames_ret.
Qed.

Lemma frames_max_of (ns : list nat) : frames (max_of ns) (fun _ => True).
Proof. destruct ns; simpl; [apply frames_raise | by apply frames_ret]. Qed.

(** The list [random.sample] returns is a new one. *)
Lemma frames_sample (population : loc) (k : Z) :
  frames (sample population k) (fun l => n0 <= l).
Proof.
  unfold sample. eapply frames_bind; [apply frames_list_items|]. intros items _.
  eapply frames_bind; [apply frames_lift|]. intros res _. apply frames_alloc.
Qed.

Lemma frames_negative_lists (all_samples : loc) (tid_positive : Z) :
  frames (negative_lists all_samples tid_positive) (fun l => n0 <= l).
Proof.
  unfold negative_lists.
  eapply frames_bind; [apply frames_alloc|]. intros negative_lists Hnl.
  eapply frames_bind; [apply frames_dict_items|]. intros items _.
  eapply frames_bind; [|intros _ _; by apply frames_ret].
  apply frames_for_in. intros [tid negs].
  destruct (negb (tid =? tid_positive)%Z); [|by apply frames_ret].
  eapply frames_bind; [apply frames_len|]. intros n _.
  destruct (0 <? n); [by apply frames_append | by apply frames_ret].
Qed.

Lemma frames_interleave (negative_lists : loc) :
  frames (interleave negative_lists) (fun l => n0 <= l).
Proof.
  unfold interleave.
  eapply frames_bind; [apply frames_alloc|]. intros interleaved_negatives Hin.
  eapply frames_bind; [apply frames_list_items|]. intros neg_lists _.
  eapply frames_bind; [apply frames_lens|]. intros ns _.
  eapply frames_bind; [apply frames_max_of|]. intros max_len _.
  eapply frames_bind; [|intros _ _; by apply frames_ret].
  apply frames_for_in. intros i.
  eapply frames_bind; [apply frames_list_items|]. intros neg_lists' _.
  apply frames_for_in. intros neg_list.
  eapply frames_bind; [apply frames_deref|]. intros l _.
  eapply frames_bind; [apply frames_len|]. intros n _.
  destruct (i <? n); [|by apply frames_ret].
  eapply frames_bind; [apply frames_getitem|]. intros x _.
  by apply frames_append.
Qed.

Lemma frames_combinations (positive_samples interleaved_negatives : loc) :
  frames (combinations positive_samples interleaved_negatives) (fun l => n0 <= l).
Proof.
  unfold combinations.
  eapply frames_bind; [apply frames_alloc|]. intros all_pairs Hap.
  eapply frames_bind; [apply frames_list_items|]. intros pos_samples _.
  eapply frames_bind; [|intros _ _; by apply frames_ret].
  apply frames_for_in. intros pos_sample.
  eapply frames_bind; [apply frames_list_items|]. intros neg_samples _.
  apply frames_for_in. intros neg_sample. by apply frames_append.
Qed.

(** The call appends to lists of its own making only, and the list it
    returns is one of them. *)
Lemma frames_create_training_pairs
    (positive_samples all_samples : loc) (tid_positive num_samples : Z) :
  frames (create_training_pairs positive_samples all_samples tid_positive num_samples)
         (fun l => n0 <= l).
Proof.
  unfold create_training_pairs.
  eapply frames_bind; [apply frames_negative_lists|]. intros negative_lists _.
  eapply frames_bind; [apply frames_len|]. intros n_positive _.
  destruct (n_positive =? 0).
  { eapply frames_bind; [apply frames_lift|]. intros _ _. apply frames_raise. }
  eapply frames_bind; [apply frames_len|]. intros n_negative _.
  destruct (n_negative =? 0).
  { eapply frames_bind; [apply frames_lift|]. intros _ _. apply frames_raise. }
  destruct (num_samples <? 0)%Z.
  { eapply frames_bind; [apply frames_lift|]. intros _ _. apply frames_alloc. }
  eapply frames_bind; [apply frames_interleave|]. intros interleaved_negatives _.
  eapply frames_bind; [apply frames_combinations|]. intros all_pairs Hap.
  eapply frames_bind; [apply frames_len|]. intros total_possible_pairs _.
  destruct (num_samples <=? Z.of_nat total_possible_pairs)%Z.
  - apply frames_sample.
  - eapply frames_bind; [apply frames_lift|]. intros _ _. by apply frames_ret.
Qed.
End Frame.

(** *** The object layer computes what the value layer computes *)

Section Refinement.
Variables (objs0 : list object) (w : world).

Local Abbreviation n0 := (length objs0).

Lemma holds_list_old (fresh : list object) (l : loc) (strs : list string) :
  holds_list objs0 l strs -> (objs0 ++ fresh) !! l = Some (List (Str <$> strs)).
Proof.
  intros Hl. rewrite lookup_app_l; [done|]. by eapply lookup_lt_Some.
Qed.

Lemma run_len_old (fresh : list object) (l : loc) (strs : list string) :
  holds_list objs0 l strs ->
  len l (Heap (objs0 ++ fresh) w) = (inr (length strs), Heap (objs0 ++ fresh) w).
Proof.
  intros Hl. unfold len, bind, list_items. simpl.
  rewrite (holds_list_old _ _ _ Hl). unfold ret. by rewrite length_fmap.
Qed.

Lemma run_list_items_fresh (fresh : list object) (l : loc) (k : nat) (items : list value) :
  l = n0 + k -> fresh !! k = Some (List items) ->
  list_items l (Heap (objs0 ++ fresh) w) = (inr items, Heap (objs0 ++ fresh) w).
Proof.
  intros -> Hk. unfold list_items. simpl.
  rewrite lookup_app_r by lia.
  replace (length objs0 + k - length objs0) with k by lia. by rewrite Hk.
Qed.

Lemma run_append_fresh (fresh : list object) (l : loc) (k : nat) (items : list value)
    (v : value) :
  l = n0 + k -> fresh !! k = Some (List items) ->
  append l v (Heap (objs0 ++ fresh) w)
  = (inr tt, Heap (objs0 ++ <[k := List (items ++ [v])]> fresh) w).
Proof.
  intros -> Hk. unfold append. simpl.
  rewrite lookup_app_r by lia.
  replace (length objs0 + k - length objs0) with k by lia. rewrite Hk.
  by rewrite insert_app_r.
Qed.

Lemma run_getitem_old (fresh : list object) (l : loc) (strs : list string)
    (i : nat) (x : string) :
  holds_list objs0 l strs -> strs !! i = Some x ->
  getitem l i (Heap (objs0 ++ fresh) w) = (inr (Str x), Heap (objs0 ++ fresh) w).
Proof.
  intros Hl Hx. unfold getitem.
  assert (Hitems : list_items l (Heap (objs0 ++ fresh) w)
                   = (inr (Str <$> strs), Heap (objs0 ++ fresh) w)).
  { unfold list_items. simpl. by rewrite (holds_list_old _ _ _ Hl). }
  run_bind Hitems. by rewrite list_lookup_fmap, Hx.
Qed.

(** The comprehension that collects the negative lists. *)
Lemma collect_refines (tid_positive : Z) (items : list (Z * loc)) (all_samples : Pairs.pool)
    (refs : list value) (nls : list (list string)) :
  Forall2 (holds_item objs0) items all_samples ->
  Forall2 (refers objs0) refs nls ->
  exists refs',
    for_in items
      (fun '(tid, negs) =>
         if negb (tid =? tid_positive)%Z then
           (n <- len negs ;;
            if 0 <? n then append n0 (Ref negs) else ret tt)
         else ret tt)%py
      (Heap (objs0 ++ [List refs]) w)
    = (inr tt, Heap (objs0 ++ [List refs']) w)
    /\ Forall2 (refers objs0) refs'
         (for_each all_samples
            (fun acc item =>
               let '(tid, negs) := item in
               if negb (tid =? tid_positive)%Z && Pairs.truthy negs
               then acc ++ [negs] else acc)
            nls).
Proof.
  intros Hitems. revert refs nls.
  induction Hitems as [|[tid l] [tid' strs] items all_samples [Htid Hl] Hitems IH];
    intros refs nls Hrefs.
  - by exists refs.
  - simpl in Htid, Hl. subst tid'. cbn [for_in for_each fold_left].
    destruct (negb (tid =? tid_positive)%Z); cbn [andb].
    + destruct strs as [|s strs]; cbn [Pairs.truthy].
      * destruct (IH refs nls Hrefs) as (refs' & Hrun & Hrefs'). exists refs'.
        split; [|done]. rewrite bind_assoc. run_bind (run_len_old [List refs] _ _ Hl).
        simpl. by run_bind_refl.
      * destruct (IH (refs ++ [Ref l]) (nls ++ [s :: strs])) as (refs' & Hrun & Hrefs').
        { apply Forall2_app; [done|]. constructor; [|constructor]. by exists l. }
        exists refs'. split; [|done].
        rewrite bind_assoc. run_bind (run_len_old [List refs] _ _ Hl). simpl.
        by run_bind (run_append_fresh [List refs] (length objs0) 0 refs (Ref l)
                       ltac:(lia) eq_refl).
    + destruct (IH refs nls Hrefs) as (refs' & Hrun & Hrefs'). exists refs'.
      split; [|done]. by run_bind_refl.
Qed.

(** The lengths over which [max] runs. *)
Lemma lens_refines (fresh : list object) (refs : list value) (nls : list (list string)) :
  Forall2 (refers objs0) refs nls ->
  lens refs (Heap (objs0 ++ fresh) w) = (inr (length <$> nls), Heap (objs0 ++ fresh) w).
Proof.
  induction 1 as [|r strs refs nls (l & -> & Hl) _ IH]; [done|].
  cbn [lens deref].
  run_bind_refl.
  run_bind (run_len_old fresh _ _ Hl). by run_bind IH.
Qed.

Lemma max_of_refines (nls : list (list string)) (h : heap) :
  nls <> [] -> max_of (length <$> nls) h = (inr (longest nls), h).
Proof.
  destruct nls as [|l nls]; [done|]. intros _. simpl. unfold ret. f_equal. f_equal.
  unfold longest, for_each. csimpl. generalize (length l). clear l.
  induction nls as [|l nls IH]; intros m; csimpl; [lia|]. rewrite IH. lia.
Qed.

(** One round of the interleaving loop, and the loop. *)
Lemma round_refines (refs0 : list value) (i : nat) (rs : list value)
    (nls : list (list string)) (acc : list string) :
  Forall2 (refers objs0) rs nls ->
  for_in rs
    (fun neg_list =>
       l <- deref neg_list ;;
       n <- len l ;;
       if i <? n then (x <- getitem l i ;; append (n0 + 1) x) else ret tt)%py
    (Heap (objs0 ++ [List refs0; List (Str <$> acc)]) w)
  = (inr tt,
     Heap (objs0 ++ [List refs0;
                     List (Str <$> for_each nls
                             (fun acc neg_list =>
                                if i <? length neg_list
                                then match neg_list !! i with
                                     | Some x => acc ++ [x]
                                     | None => acc
                                     end
                                else acc)
                             acc)]) w).
Proof.
  intros Hrs. revert acc.
  induction Hrs as [|r strs rs nls (l & -> & Hl) _ IH]; intros acc; [done|].
  cbn [for_in for_each fold_left deref].
  rewrite bind_assoc.
  run_bind_refl.
  rewrite bind_assoc.
  run_bind (run_len_old [List refs0; List (Str <$> acc)] _ _ Hl).
  destruct (Nat.ltb_spec i (length strs)) as [Hi|Hi].
  - destruct (lookup_lt_is_Some_2 strs i Hi) as [x Hx]. rewrite Hx.
    rewrite bind_assoc.
    run_bind (run_getitem_old [List refs0; List (Str <$> acc)] _ _ _ _ Hl Hx).
    run_bind (run_append_fresh [List refs0; List (Str <$> acc)] (length objs0 + 1) 1
                (Str <$> acc) (Str x) eq_refl eq_refl).
    cbn [insert list_insert]. rewrite <- (fmap_snoc Str acc x). apply IH.
  - run_bind_refl.
    apply IH.
Qed.

Lemma rounds_refine (refs0 : list value) (nls : list (list string))
    (rounds : list nat) (acc : list string) :
  Forall2 (refers objs0) refs0 nls ->
  for_in rounds
    (fun i =>
       neg_lists <- list_items n0 ;;
       for_in neg_lists
         (fun neg_list =>
            l <- deref neg_list ;;
            n <- len l ;;
            if i <? n then (x <- getitem l i ;; append (n0 + 1) x) else ret tt))%py
    (Heap (objs0 ++ [List refs0; List (Str <$> acc)]) w)
  = (inr tt,
     Heap (objs0 ++ [List refs0;
                     List (Str <$> for_each rounds
                             (fun interleaved_negatives i =>
                                for_each nls
                                  (fun interleaved_negatives neg_list =>
                                     if i <? length neg_list
                                     then match neg_list !! i with
                                          | Some x => interleaved_negatives ++ [x]
                                          | None => interleaved_negatives
                                          end
                                     else interleaved_negatives)
                                  interleaved_negatives)
                             acc)]) w).
Proof.
  intros Hrefs. revert acc.
  induction rounds as [|i rounds IH]; intros acc; [done|].
  cbn [for_in for_each fold_left].
  rewrite bind_assoc.
  run_bind (run_list_items_fresh [List refs0; List (Str <$> acc)] (length objs0) 0 refs0
              ltac:(lia) eq_refl).
  run_bind (round_refines refs0 i refs0 nls acc Hrefs). apply IH.
Qed.

(** The loops that pair every positive sample with every negative one. *)
Lemma pairs_of_refines (refs0 : list value) (negs0 : list value) (p : string)
    (ns : list string) (acc : list Pairs.pair) :
  for_in (Str <$> ns)
    (fun neg_sample => append (n0 + 2) (Tuple (Str p) neg_sample))
    (Heap (objs0 ++ [List refs0; List negs0; List (tuple_of <$> acc)]) w)
  = (inr tt,
     Heap (objs0 ++ [List refs0; List negs0;
                     List (tuple_of <$> for_each ns
                             (fun all_pairs neg_sample => all_pairs ++ [(p, neg_sample)])
                             acc)]) w).
Proof.
  revert acc. induction ns as [|n ns IH]; intros acc; [done|].
  cbn [fmap list_fmap for_in for_each fold_left].
  run_bind (run_append_fresh [List refs0; List negs0; List (tuple_of <$> acc)]
              (length objs0 + 2) 2 (tuple_of <$> acc) (Tuple (Str p) (Str n))
              eq_refl eq_refl).
  cbn [insert list_insert]. change (Tuple (Str p) (Str n)) with (tuple_of (p, n)).
  rewrite <- (fmap_snoc tuple_of acc (p, n)). apply IH.
Qed.

Lemma pairs_refine (refs0 : list value) (ps ns : list string)
    (acc : list Pairs.pair) :
  for_in (Str <$> ps)
    (fun pos_sample =>
       neg_samples <- list_items (n0 + 1) ;;
       for_in neg_samples
         (fun neg_sample => append (n0 + 2) (Tuple pos_sample neg_sample)))%py
    (Heap (objs0 ++ [List refs0; List (Str <$> ns); List (tuple_of <$> acc)]) w)
  = (inr tt,
     Heap (objs0 ++ [List refs0; List (Str <$> ns);
                     List (tuple_of <$> for_each ps
                             (fun all_pairs pos_sample =>
                                for_each ns
                                  (fun all_pairs neg_sample =>
                                     all_pairs ++ [(pos_sample, neg_sample)])
                                  all_pairs)
                             acc)]) w).
Proof.
  revert acc. induction ps as [|p ps IH]; intros acc; [done|].
  cbn [fmap list_fmap for_in for_each fold_left].
  rewrite bind_assoc.
  run_bind (run_list_items_fresh
              [List refs0; List (Str <$> ns); List (tuple_of <$> acc)]
              (length objs0 + 1) 1 (Str <$> ns) eq_refl eq_refl).
  run_bind (pairs_of_refines refs0 (Str <$> ns) p ns acc). apply IH.
Qed.
Lemma run_dict_items_old (fresh : list object) (d : loc) (items : list (Z * loc)) :
  objs0 !! d = Some (Dict items) ->
  dict_items d (Heap (objs0 ++ fresh) w) = (inr items, Heap (objs0 ++ fresh) w).
Proof.
  intros Hd. unfold dict_items. cbn [objects].
  rewrite lookup_app_l by (by eapply lookup_lt_Some). by rewrite Hd.
Qed.

Lemma run_len_fresh (fresh : list object) (l : loc) (k : nat) (items : list value) :
  l = n0 + k -> fresh !! k = Some (List items) ->
  len l (Heap (objs0 ++ fresh) w) = (inr (length items), Heap (objs0 ++ fresh) w).
Proof.
  intros Hl Hk. unfold len. by run_bind (run_list_items_fresh fresh l k items Hl Hk).
Qed.
End Refinement.

Section Pieces.
Variables (objs0 : list object) (w : world).

Lemma negative_lists_refines (all_samples : loc) (pool_values : Pairs.pool)
    (tid_positive : Z) :
  holds_pool objs0 all_samples pool_values ->
  exists refs,
    negative_lists all_samples tid_positive (Heap objs0 w)
    = (inr (length objs0), Heap (objs0 ++ [List refs]) w)
    /\ Forall2 (refers objs0) refs (Pairs.negative_lists pool_values tid_positive).
Proof.
  intros (items & Hdict & Hitems).
  destruct (collect_refines objs0 w tid_positive items pool_values [] [] Hitems)
    as (refs & Hcollect & Hrefs); [constructor|].
  exists refs. split; [|done]. unfold negative_lists.
  run_bind_refl. cbn [objects outside].
  run_bind (run_dict_items_old objs0 w [List []] _ _ Hdict).
  by run_bind Hcollect.
Qed.

Lemma interleave_refines (refs : list value) (nls : list (list string)) :
  Forall2 (refers objs0) refs nls -> nls <> [] ->
  interleave (length objs0) (Heap (objs0 ++ [List refs]) w)
  = (inr (length objs0 + 1),
     Heap (objs0 ++ [List refs; List (Str <$> Pairs.interleave (longest nls) nls)]) w).
Proof.
  intros Hrefs Hnls. unfold interleave.
  run_bind_refl. cbn [objects outside]. rewrite <- app_assoc, length_app. simpl.
  run_bind (run_list_items_fresh objs0 w [List refs; List []] (length objs0) 0 refs
              ltac:(lia) eq_refl).
  run_bind (lens_refines objs0 w [List refs; List []] refs nls Hrefs).
  run_bind (max_of_refines nls (Heap (objs0 ++ [List refs; List []]) w) Hnls).
  by run_bind (rounds_refine objs0 w refs nls (range (longest nls)) [] Hrefs).
Qed.

Lemma combinations_refines (refs : list value) (positive_samples : loc)
    (ps ns : list string) :
  holds_list objs0 positive_samples ps ->
  combinations positive_samples (length objs0 + 1)
    (Heap (objs0 ++ [List refs; List (Str <$> ns)]) w)
  = (inr (length objs0 + 2),
     Heap (objs0 ++ [List refs; List (Str <$> ns);
                     List (tuple_of <$> Pairs.combinations ps ns)]) w).
Proof.
  intros Hps. unfold combinations.
  run_bind_refl. cbn [objects outside]. rewrite <- app_assoc, length_app. simpl.
  assert (Hitems : list_items positive_samples
                     (Heap (objs0 ++ [List refs; List (Str <$> ns); List []]) w)
                   = (inr (Str <$> ps),
                      Heap (objs0 ++ [List refs; List (Str <$> ns); List []]) w)).
  { unfold list_items. cbn [objects]. by rewrite (holds_list_old objs0 _ _ _ Hps). }
  run_bind Hitems.
  by run_bind (pairs_refine objs0 w refs ps ns []).
Qed.
End Pieces.

(** On a store that holds the positive samples and the pool, the call on the
    references does what the call of the value layer does on the values: the
    same exception, or a list object that holds the same pairs; the same
    draws and the same log. *)
Theorem create_training_pairs_refines
    (h : heap) (positive_samples all_samples : loc)
    (positive_values : list string) (pool_values : Pairs.pool)
    (tid_positive num_samples : Z) :
  holds_list (objects h) positive_samples positive_values ->
  holds_pool (objects h) all_samples pool_values ->
  exists r h',
    create_training_pairs positive_samples all_samples tid_positive num_samples h = (r, h')
    /\ outside h'
       = (Pairs.create_training_pairs positive_values pool_values tid_positive num_samples
            (outside h)).2
    /\ same_result (objects h') r
         (Pairs.create_training_pairs positive_values pool_values tid_positive num_samples
            (outside h)).1.
Proof.
  destruct h as [objs0 w]. cbn [objects outside]. intros Hpos Hpool.
  destruct (negative_lists_refines objs0 w all_samples pool_values tid_positive Hpool)
    as (refs & Hcollect & Hrefs).
  pose proof (Forall2_length _ _ _ Hrefs) as Hlen.
  set (h1 := Heap (objs0 ++ [List refs]) w).
  assert (Hlen_pos : len positive_samples h1 = (inr (length positive_values), h1))
    by apply (run_len_old objs0 w [List refs] _ _ Hpos).
  assert (Hlen_neg : len (length objs0) h1 = (inr (length refs), h1))
    by (apply (run_len_fresh objs0 w [List refs] _ 0 refs); [lia | done]).
  unfold create_training_pairs.
  destruct (decide (positive_values = [])) as [->|Hpv].
  { (* no positive sample *)
    rewrite PairsFacts.run_empty_positive by done.
    eexists _, _. split.
    { run_bind Hcollect. run_bind Hlen_pos. reflexivity. }
    split; reflexivity. }
  assert (Hpv' : (length positive_values =? 0) = false)
    by (apply Nat.eqb_neq; by destruct positive_values).
  destruct (decide (Pairs.negative_lists pool_values tid_positive = [])) as [Hnls|Hnls].
  { (* no negative list *)
    rewrite PairsFacts.run_no_negatives by done.
    rewrite Hnls in Hlen. simpl in Hlen.
    eexists _, _. split.
    { run_bind Hcollect. run_bind Hlen_pos. rewrite Hpv'.
      run_bind Hlen_neg. rewrite Hlen. reflexivity. }
    split; reflexivity. }
  assert (Hrefs' : (length refs =? 0) = false).
  { apply Nat.eqb_neq. rewrite Hlen.
    by destruct (Pairs.negative_lists pool_values tid_positive). }
  assert (valid : Pairs.valid_pool positive_values pool_values tid_positive)
    by (by apply PairsFacts.valid_pool_negative_lists).
  destruct (Z_lt_dec num_samples 0) as [Hneg|Hnonneg].
  { (* negative count *)
    rewrite PairsFacts.run_negative_count by done.
    eexists _, _. split.
    { run_bind Hcollect. run_bind Hlen_pos. rewrite Hpv'.
      run_bind Hlen_neg. rewrite Hrefs'.
      rewrite (proj2 (Z.ltb_lt _ _) Hneg). reflexivity. }
    split; [reflexivity|].
    cbn [same_result objects fst]. subst h1. cbn [objects].
    by rewrite lookup_app_r, Nat.sub_diag by lia. }
  set (negs := Pairs.interleave (longest (Pairs.negative_lists pool_values tid_positive))
                 (Pairs.negative_lists pool_values tid_positive)).
  set (all_pairs := Pairs.combinations positive_values negs).
  set (h3 := Heap (objs0 ++ [List refs; List (Str <$> negs); List (tuple_of <$> all_pairs)]) w).
  assert (Hlen_all : len (length objs0 + 2) h3 = (inr (length all_pairs), h3)).
  { unfold h3.
    rewrite (run_len_fresh objs0 w _ (length objs0 + 2) 2 (tuple_of <$> all_pairs))
      by done.
    by rewrite length_fmap. }
  assert (Hitems_all : list_items (length objs0 + 2) h3 = (inr (tuple_of <$> all_pairs), h3))
    by (by apply (run_list_items_fresh objs0 w _ (length objs0 + 2) 2)).
  assert (Hmain : forall (k : loc -> O loc),
            ((negative_lists <- negative_lists all_samples tid_positive ;;
              n_positive <- len positive_samples ;;
              if n_positive =? 0 then
                (lift (log ERROR (NoPositiveSamples tid_positive)) ;;;
                 raise (ValueError (NoPositiveSamples tid_positive)))
              else
              n_negative <- len negative_lists ;;
              if n_negative =? 0 then
                (lift (log ERROR (NoNonEmptyNegatives tid_positive)) ;;;
                 raise (ValueError (NoNonEmptyNegatives tid_positive)))
              else if (num_samples <? 0)%Z then
                (lift (log WARNING (NegativeNumSamples num_samples)) ;;;
                 alloc (List []))
              else
              interleaved_negatives <- interleave negative_lists ;;
              all_pairs <- combinations positive_samples interleaved_negatives ;;
              k all_pairs)%py (Heap objs0 w))
            = k (length objs0 + 2) h3).
  { intros k. run_bind Hcollect. run_bind Hlen_pos. rewrite Hpv'.
    run_bind Hlen_neg. rewrite Hrefs'.
    rewrite (proj2 (Z.ltb_ge _ _)) by lia.
    run_bind (interleave_refines objs0 w refs _ Hrefs Hnls).
    by run_bind (combinations_refines objs0 w refs positive_samples positive_values negs Hpos). }
  rewrite Hmain. clear Hmain.
  change all_pairs with (Pairs.candidates positive_values pool_values tid_positive) in *.
  destruct (Z_le_dec num_samples
              (Z.of_nat (length (Pairs.candidates positive_values pool_values tid_positive))))
    as [Hle|Hgt].
  - (* a sample *)
    rewrite PairsFacts.run_sample by (done || lia).
    destruct (sample_spec (Pairs.candidates positive_values pool_values tid_positive)
                num_samples w ltac:(lia)) as (res & idxs & w' & Hs & _).
    rewrite Hs.
    eexists _, _. split.
    { run_bind Hlen_all. rewrite (proj2 (Z.leb_le _ _) Hle).
      unfold sample. run_bind Hitems_all.
      assert (Hlift : lift (Py.sample
                              (tuple_of <$> Pairs.candidates positive_values pool_values
                                              tid_positive) num_samples) h3
                      = (inr (tuple_of <$> res), Heap (objects h3) w')).
      { unfold lift. cbn [outside h3]. by rewrite sample_fmap, Hs. }
      run_bind Hlift. reflexivity. }
    split; [reflexivity|].
    cbn [same_result objects fst h3].
    by rewrite lookup_app_r, Nat.sub_diag by lia.
  - (* all the pairs *)
    rewrite PairsFacts.run_all_pairs by (done || lia).
    eexists _, _. split.
    { run_bind Hlen_all. rewrite (proj2 (Z.leb_gt _ _)) by lia. reflexivity. }
    split; [reflexivity|].
    cbn [same_result objects fst h3].
    rewrite lookup_app_r by lia.
    by replace (length objs0 + 2 - length objs0) with 2 by lia.
Qed.

End ObjectsFacts.

(** ** The properties of the specification *)

Import Pairs PyFacts PairsFacts Returns.

Local Open Scope string_scope.

Ltac in_list := apply list_elem_of_In; vm_compute; auto 10.

Ltac valid_example tid negs :=
  split; [ done | exists tid, negs; repeat split; [ in_list | done | done ] ].

(** C1 (as amended).  For a valid pool and a count that reaches the number of
    candidate pairs, the call returns all the candidate pairs: a rearrangement
    of the candidate enumeration (positive-sequence order, then
    interleaved-negative order), and the enumeration itself when the count
    exceeds the number of candidates. *)
Theorem all_candidates_when_count_reaches_total
    (positive_samples : list string) (all_samples : pool)
    (tid_positive num_samples : Z) (w : world) :
  valid_pool positive_samples all_samples tid_positive ->
  (Z.of_nat (length (candidates positive_samples all_samples tid_positive)) <= num_samples)%Z ->
  exists res,
    (create_training_pairs positive_samples all_samples tid_positive num_samples w).1 = inr res
    /\ res ≡ₚ Spec.candidate_pairs positive_samples all_samples tid_positive
    /\ ((Z.of_nat (length (candidates positive_samples all_samples tid_positive)) < num_samples)%Z ->
        res = Spec.candidate_pairs positive_samples all_samples tid_positive).
Proof.
  intros valid Hn. rewrite <- candidates_candidate_pairs.
  destruct (Z_lt_dec (Z.of_nat (length (candidates positive_samples all_samples tid_positive)))
              num_samples) as [Hgt|Heq].
  - exists (candidates positive_samples all_samples tid_positive).
    by rewrite run_all_pairs.
  - rewrite run_sample by (done || lia).
    destruct (sample_spec (candidates positive_samples all_samples tid_positive)
                num_samples w ltac:(lia))
      as (res & idxs & w' & -> & _ & Hlen & _ & rest & Hperm).
    exists res. split; [done|]. split; [|lia].
    assert (rest = []) as ->; [|by rewrite app_nil_r in Hperm].
    apply Permutation_length in Hperm. rewrite length_app in Hperm.
    apply length_zero_iff_nil. lia.
Qed.

Lemma all_candidates_when_count_reaches_total_witness :
  exists res,
    (create_training_pairs ["p1"; "p2"] example_pool 1 6 (world0 [3; 1; 4; 1; 5; 9])).1 = inr res
    /\ res ≡ₚ Spec.candidate_pairs ["p1"; "p2"] example_pool 1
    /\ ((Z.of_nat (length (candidates ["p1"; "p2"] example_pool 1)) < 6)%Z ->
        res = Spec.candidate_pairs ["p1"; "p2"] example_pool 1).
Proof.
  apply (all_candidates_when_count_reaches_total ["p1"; "p2"] example_pool 1 6).
  - valid_example 2%Z ["n1"].
  - vm_compute. discriminate.
Defined.

(** C1 as stated fails when the count equals the number of candidates: the
    pairs then go through [random.sample] and come back in the order drawn. *)
Lemma count_equal_total_is_shuffled :
  let positive_samples := ["p1"; "p2"] in
  let all_samples := [(1%Z, ["p1"; "p2"]); (2%Z, ["n1"])] in
  valid_pool positive_samples all_samples 1
  /\ (2 >= Z.of_nat (length (candidates positive_samples all_samples 1)))%Z
  /\ candidates positive_samples all_samples 1 = [("p1", "n1"); ("p2", "n1")]
  /\ (create_training_pairs positive_samples all_samples 1 2 (world0 [1])).1
     = inr [("p2", "n1"); ("p1", "n1")]
  /\ (create_training_pairs positive_samples all_samples 1 2 (world0 [1])).1
     <> inr (candidates positive_samples all_samples 1)
  /\ (create_training_pairs positive_samples all_samples 1 2 (world0 [1])).1
     <> inr (Spec.candidate_pairs positive_samples all_samples 1)
  /\ build_pairs all_samples 1 2
     = Some (create_training_pairs positive_samples all_samples 1 2).
Proof.
  intros positive_samples all_samples.
  split; [valid_example 2%Z ["n1"]|].
  split; [vm_compute; discriminate|].
  split; [reflexivity|].
  split; [reflexivity|].
  split; [intros H; vm_compute in H; congruence|].
  split; [|reflexivity].
  rewrite <- candidates_candidate_pairs. intros H. vm_compute in H. congruence.
Qed.

(** C2.  The flat negative sequence is the round-robin interleaving of the
    non-empty sequences of the topics other than the positive one: round after
    round, each contributing topic is visited in pool order and gives its
    element at the index of the round when it has one.  With negative topics
    A (3 items), B (1 item) and C (2 items) it is A0, B0, C0, A1, C1, A2. *)
Theorem interleaved_negatives_round_robin (all_samples : pool) (tid_positive : Z) :
  interleaved_negatives all_samples tid_positive
  = Spec.round_robin (Spec.contributing all_samples tid_positive)
  /\ (forall w : world,
        negative_lists all_samples tid_positive <> [] ->
        exists m,
          max_len (negative_lists all_samples tid_positive) w = (inr m, w)
          /\ interleave m (negative_lists all_samples tid_positive)
             = interleaved_negatives all_samples tid_positive)
  /\ (forall (tid_a tid_b tid_c : Z) (positive_samples : list string)
             (a0 a1 a2 b0 c0 c1 : string),
        tid_a <> tid_positive -> tid_b <> tid_positive -> tid_c <> tid_positive ->
        all_samples = [(tid_positive, positive_samples); (tid_a, [a0; a1; a2]);
                       (tid_b, [b0]); (tid_c, [c0; c1])] ->
        interleaved_negatives all_samples tid_positive = [a0; b0; c0; a1; c1; a2]).
Proof.
  split; [|split].
  - unfold interleaved_negatives.
    by rewrite interleave_round_robin, negative_lists_contributing.
  - intros w Hnls. exists (longest (negative_lists all_samples tid_positive)).
    split; [by apply max_len_longest | done].
  - intros tid_a tid_b tid_c positive_samples a0 a1 a2 b0 c0 c1 Ha Hb Hc ->.
    unfold interleaved_negatives, negative_lists, for_each. simpl.
    rewrite Z.eqb_refl.
    rewrite (proj2 (Z.eqb_neq _ _) Ha), (proj2 (Z.eqb_neq _ _) Hb),
      (proj2 (Z.eqb_neq _ _) Hc).
    reflexivity.
Qed.

Lemma interleaved_negatives_round_robin_witness :
  (exists m,
     max_len (negative_lists example_pool 1) (world0 []) = (inr m, world0 [])
     /\ interleave m (negative_lists example_pool 1) = interleaved_negatives example_pool 1)
  /\ interleaved_negatives
       [(1%Z, ["p"]); (2%Z, ["A0"; "A1"; "A2"]); (3%Z, ["B0"]); (4%Z, ["C0"; "C1"])] 1
     = ["A0"; "B0"; "C0"; "A1"; "C1"; "A2"].
Proof.
  split.
  - apply (interleaved_negatives_round_robin example_pool 1). vm_compute. discriminate.
  - apply (proj2 (proj2 (interleaved_negatives_round_robin
                           [(1%Z, ["p"]); (2%Z, ["A0"; "A1"; "A2"]); (3%Z, ["B0"]);
                            (4%Z, ["C0"; "C1"])] 1))
             2%Z 3%Z 4%Z ["p"]); (discriminate || reflexivity).
Defined.

(** C3.  The call raises the no-positive-samples [ValueError] when the
    positive sequence is empty; it raises a [ValueError] when no other topic
    has a representation, the no-negatives one unless the positive sequence is
    empty too; in every other case, whatever the count, it returns a list of
    candidate pairs no longer than the count. *)
Theorem validation_outcomes
    (positive_samples : list string) (all_samples : pool)
    (tid_positive num_samples : Z) (w : world) :
  let result :=
    (create_training_pairs positive_samples all_samples tid_positive num_samples w).1 in
  (positive_samples = [] ->
   result = inl (ValueError (NoPositiveSamples tid_positive)))
  /\ ((forall tid negs, (tid, negs) ∈ all_samples -> tid <> tid_positive -> negs = []) ->
      exists m, result = inl (ValueError m)
                /\ (positive_samples <> [] -> m = NoNonEmptyNegatives tid_positive))
  /\ (valid_pool positive_samples all_samples tid_positive ->
      exists res, result = inr res
                  /\ (forall pr, pr ∈ res ->
                                 pr ∈ candidates positive_samples all_samples tid_positive)
                  /\ (Z.of_nat (length res) <= Z.max 0 num_samples)%Z).
Proof.
  intros result. subst result. repeat split.
  - intros Hpos. by rewrite run_empty_positive.
  - intros Hneg%no_negatives_negative_lists.
    destruct (decide (positive_samples = [])) as [Hpos|Hpos].
    + exists (NoPositiveSamples tid_positive). by rewrite run_empty_positive.
    + exists (NoNonEmptyNegatives tid_positive). by rewrite run_no_negatives.
  - intros valid.
    destruct (create_training_pairs positive_samples all_samples tid_positive num_samples w)
      as [[e|res] w'] eqn:Hrun.
    + exfalso. pose proof valid as [Hpos Hneg]%valid_pool_negative_lists.
      destruct (Z_lt_dec num_samples 0).
      { by rewrite run_negative_count in Hrun. }
      destruct (Z_le_dec num_samples
                  (Z.of_nat (length (candidates positive_samples all_samples tid_positive)))).
      * rewrite run_sample in Hrun by (done || lia).
        destruct (sample_spec (candidates positive_samples all_samples tid_positive)
                    num_samples w ltac:(lia)) as (? & ? & ? & Hs & _).
        by rewrite Hs in Hrun.
      * by rewrite run_all_pairs in Hrun by (done || lia).
    + exists res. split; [done|].
      by apply (returned_pairs positive_samples all_samples tid_positive num_samples w);
        rewrite Hrun.
Qed.

Lemma validation_outcomes_witness :
  (create_training_pairs [] [(1%Z, []); (2%Z, ["n1"])] 1 3 (world0 [7])).1
  = inl (ValueError (NoPositiveSamples 1))
  /\ (exists m, (create_training_pairs ["p1"] [(1%Z, ["p1"]); (2%Z, [])] 1 3 (world0 [7])).1
                = inl (ValueError m)
                /\ (["p1"] <> [] -> m = NoNonEmptyNegatives 1))
  /\ (exists res, (create_training_pairs ["p1"; "p2"] example_pool 1 4 (world0 [5; 0; 2])).1
                  = inr res
                  /\ (forall pr, pr ∈ res -> pr ∈ candidates ["p1"; "p2"] example_pool 1)
                  /\ (Z.of_nat (length res) <= Z.max 0 4)%Z).
Proof.
  split; [|split].
  - by apply (validation_outcomes [] [(1%Z, []); (2%Z, ["n1"])] 1 3 (world0 [7])).
  - apply (validation_outcomes ["p1"] [(1%Z, ["p1"]); (2%Z, [])] 1 3 (world0 [7])).
    intros tid negs Hin Hne.
    apply list_elem_of_In in Hin. simpl in Hin.
    destruct Hin as [[= <- <-]|[[= <- <-]|[]]]; done.
  - apply (validation_outcomes ["p1"; "p2"] example_pool 1 4 (world0 [5; 0; 2])).
    valid_example 2%Z ["n1"].
Defined.



(** C5.  For a valid pool and a count above the number of candidate pairs
    (the cross-product of the positive sequence with the interleaved
    negatives), the returned list has the length of that cross-product and
    holds its pair at every position exactly once: it is the candidate
    enumeration, with as many pairs as the positive sequence has strings
    times the other topics have together, every pair of a positive string
    and a string of another topic among them; it repeats a pair only where the
    pool repeats a string. *)
Theorem oversubscription_returns_every_candidate
    (positive_samples : list string) (all_samples : pool)
    (tid_positive num_samples : Z) (w : world) :
  valid_pool positive_samples all_samples tid_positive ->
  (Z.of_nat (length (Spec.candidate_pairs positive_samples all_samples tid_positive))
   < num_samples)%Z ->
  exists res,
    (create_training_pairs positive_samples all_samples tid_positive num_samples w).1 = inr res
    /\ length res = length (Spec.candidate_pairs positive_samples all_samples tid_positive)
    /\ drawn_at (Spec.candidate_pairs positive_samples all_samples tid_positive)
         (seq 0 (length (Spec.candidate_pairs positive_samples all_samples tid_positive)))
         res
    /\ length res
       = length positive_samples
         * length (concat (Spec.contributing all_samples tid_positive))
    /\ (forall p n,
          p ∈ positive_samples ->
          n ∈ concat (Spec.contributing all_samples tid_positive) ->
          (p, n) ∈ res)
    /\ (NoDup positive_samples ->
        NoDup (concat (Spec.contributing all_samples tid_positive)) ->
        NoDup res).
Proof.
  rewrite <- candidates_candidate_pairs.
  intros valid Hn. rewrite run_all_pairs by done.
  exists (candidates positive_samples all_samples tid_positive).
  split; [done|]. split; [done|]. split; [|split; [|split]].
  - split; [apply NoDup_seq|].
    apply Forall2_lookup. intros j.
    match goal with
    | |- context [seq 0 ?n] => destruct (decide (j < n)) as [Hj|Hj]
    end.
    + rewrite lookup_seq_lt by done.
      match goal with
      | |- option_Forall2 _ ?x _ => destruct x as [pr|] eqn:E
      end; [by constructor|].
      apply lookup_ge_None_1 in E. exfalso.
      exact (Nat.lt_irrefl _ (Nat.lt_le_trans _ _ _ Hj E)).
    + rewrite lookup_seq_ge by lia.
      match goal with
      | |- option_Forall2 _ ?x _ => destruct x as [pr|] eqn:E
      end; [|constructor].
      apply lookup_lt_Some in E. exfalso. apply Hj. exact E.
  - unfold candidates, interleaved_negatives.
    rewrite length_combinations.
    by rewrite interleave_Permutation, negative_lists_contributing.
  - intros p n Hp Hn'. unfold candidates, interleaved_negatives.
    apply elem_of_combinations. split; [done|].
    by rewrite interleave_Permutation, negative_lists_contributing.
  - intros Hpos Hneg. unfold candidates, interleaved_negatives.
    apply NoDup_combinations; [done|].
    by rewrite interleave_Permutation, negative_lists_contributing.
Qed.

Lemma oversubscription_returns_every_candidate_witness :
  exists res,
    (create_training_pairs ["p1"; "p2"] example_pool 1 100 (world0 [])).1 = inr res
    /\ length res = length (Spec.candidate_pairs ["p1"; "p2"] example_pool 1)
    /\ drawn_at (Spec.candidate_pairs ["p1"; "p2"] example_pool 1)
         (seq 0 (length (Spec.candidate_pairs ["p1"; "p2"] example_pool 1))) res
    /\ length res = length ["p1"; "p2"] * length (concat (Spec.contributing example_pool 1))
    /\ (forall p n,
          p ∈ ["p1"; "p2"] ->
          n ∈ concat (Spec.contributing example_pool 1) ->
          (p, n) ∈ res)
    /\ (NoDup ["p1"; "p2"] ->
        NoDup (concat (Spec.contributing example_pool 1)) ->
        NoDup res).
Proof.
  apply (oversubscription_returns_every_candidate ["p1"; "p2"] example_pool 1 100 (world0 [])).
  - valid_example 2%Z ["n1"].
  - rewrite <- candidates_candidate_pairs. vm_compute. reflexivity.
Defined.

(** C6 (as amended).  In every returned pair the positive text is a member of
    the positive sequence and the negative text is a member of the sequence of
    a topic whose id is not the positive one; it is not a member of the
    positive sequence as long as no other topic repeats a string of it. *)
Theorem topic_isolation_by_topic_id
    (positive_samples : list string) (all_samples : pool)
    (tid_positive num_samples : Z) (w : world)
    (res : list pair) (positive_text negative_text : string) :
  (create_training_pairs positive_samples all_samples tid_positive num_samples w).1 = inr res ->
  (positive_text, negative_text) ∈ res ->
  positive_text ∈ positive_samples
  /\ (exists tid negs,
        (tid, negs) ∈ all_samples /\ tid <> tid_positive /\ negative_text ∈ negs)
  /\ ((forall tid negs s,
         (tid, negs) ∈ all_samples -> tid <> tid_positive -> s ∈ negs ->
         s ∉ positive_samples) ->
      negative_text ∉ positive_samples).
Proof.
  intros Hrun Hin.
  apply returned_pairs in Hrun as (_ & Hcand & _).
  apply Hcand, elem_of_candidates in Hin as [Hp (tid & negs & Hin & Hne & Hn)].
  split; [done|]. split; [eauto|]. intros Hdisjoint. by eapply Hdisjoint.
Qed.

Lemma topic_isolation_by_topic_id_witness :
  "p2" ∈ ["p1"; "p2"]
  /\ (exists tid negs, (tid, negs) ∈ example_pool /\ tid <> 1%Z /\ "n3" ∈ negs)
  /\ ((forall tid negs s,
         (tid, negs) ∈ example_pool -> tid <> 1%Z -> s ∈ negs -> s ∉ ["p1"; "p2"]) ->
      "n3" ∉ ["p1"; "p2"]).
Proof.
  apply (topic_isolation_by_topic_id ["p1"; "p2"] example_pool 1 4 (world0 [5; 0; 2])
           [("p2", "n3"); ("p1", "n1"); ("p1", "n3"); ("p2", "n2")]).
  - reflexivity.
  - in_list.
Defined.

(** C6 as stated fails on a pool in which another topic holds a string of the
    positive topic: the negative text of the returned pair is then a member of
    the positive topic's own sequence. *)
Lemma negative_text_in_positive_sequence :
  let all_samples := [(1%Z, ["a"]); (2%Z, ["a"])] in
  build_pairs all_samples 1 1 = Some (create_training_pairs ["a"] all_samples 1 1)
  /\ (create_training_pairs ["a"] all_samples 1 1 (world0 [])).1 = inr [("a", "a")]
  /\ ("a", "a") ∈ [("a", "a")]
  /\ ~ ("a" ∉ ["a"]).
Proof.
  intros all_samples.
  split; [reflexivity|]. split; [reflexivity|]. split; [in_list|].
  intros H. apply H. in_list.
Qed.

(** C7.  For a valid pool, a negative count returns the empty list without
    raising; a warning is logged and nothing else happens. *)
Theorem negative_count_returns_empty
    (positive_samples : list string) (all_samples : pool)
    (tid_positive num_samples : Z) (w : world) :
  valid_pool positive_samples all_samples tid_positive ->
  (num_samples < 0)%Z ->
  create_training_pairs positive_samples all_samples tid_positive num_samples w
  = (inr [], World (random_state w)
                   (logged w ++ [(WARNING, NegativeNumSamples num_samples)])).
Proof. intros valid Hn. by apply run_negative_count. Qed.

Lemma negative_count_returns_empty_witness :
  create_training_pairs ["p1"; "p2"] example_pool 1 (-5) (world0 [5; 0; 2])
  = (inr [], World [5; 0; 2] [(WARNING, NegativeNumSamples (-5))]).
Proof.
  apply (negative_count_returns_empty ["p1"; "p2"] example_pool 1 (-5) (world0 [5; 0; 2])).
  - valid_example 2%Z ["n1"].
  - reflexivity.
Defined.

(** C9.  When the positive sequence is empty and no other topic has a
    representation either, the error raised is the no-positive-samples one,
    not the no-negatives one. *)
Theorem empty_positive_takes_precedence
    (all_samples : pool) (tid_positive num_samples : Z) (w : world) :
  (forall tid negs, (tid, negs) ∈ all_samples -> tid <> tid_positive -> negs = []) ->
  (create_training_pairs [] all_samples tid_positive num_samples w).1
  = inl (ValueError (NoPositiveSamples tid_positive))
  /\ (create_training_pairs [] all_samples tid_positive num_samples w).1
     <> inl (ValueError (NoNonEmptyNegatives tid_positive))
  /\ logged (create_training_pairs [] all_samples tid_positive num_samples w).2
     = (logged w ++ [(ERROR, NoPositiveSamples tid_positive)])%list.
Proof. intros _. by rewrite run_empty_positive. Qed.

Lemma empty_positive_takes_precedence_witness :
  (create_training_pairs [] [(1%Z, []); (2%Z, [])] 1 3 (world0 [7])).1
  = inl (ValueError (NoPositiveSamples 1))
  /\ (create_training_pairs [] [(1%Z, []); (2%Z, [])] 1 3 (world0 [7])).1
     <> inl (ValueError (NoNonEmptyNegatives 1))
  /\ logged (create_training_pairs [] [(1%Z, []); (2%Z, [])] 1 3 (world0 [7])).2
     = (logged (world0 [7]) ++ [(ERROR, NoPositiveSamples 1)])%list.
Proof.
  apply (empty_positive_takes_precedence [(1%Z, []); (2%Z, [])] 1 3 (world0 [7])).
  intros tid negs Hin Hne.
  apply list_elem_of_In in Hin. simpl in Hin.
  destruct Hin as [[= <- <-]|[[= <- <-]|[]]]; done.
Defined.

(** C10.  A negative count does not get past the validations: with an empty
    positive sequence, or with no representation in any other topic, the call
    raises the corresponding [ValueError] and returns no list. *)
Theorem negative_count_is_validated
    (positive_samples : list string) (all_samples : pool)
    (tid_positive num_samples : Z) (w : world) :
  (num_samples < 0)%Z ->
  positive_samples = []
  \/ (forall tid negs, (tid, negs) ∈ all_samples -> tid <> tid_positive -> negs = []) ->
  (create_training_pairs positive_samples all_samples tid_positive num_samples w).1
  = inl (ValueError (if decide (positive_samples = [])
                     then NoPositiveSamples tid_positive
                     else NoNonEmptyNegatives tid_positive)).
Proof.
  intros _ Hinvalid. destruct (decide (positive_samples = [])) as [Hpos|Hpos].
  - by rewrite run_empty_positive.
  - destruct Hinvalid as [?|Hneg%no_negatives_negative_lists]; [done|].
    by rewrite run_no_negatives.
Qed.

Lemma negative_count_is_validated_witness :
  (create_training_pairs ["p1"] [(1%Z, ["p1"]); (2%Z, [])] 1 (-5) (world0 [7])).1
  = inl (ValueError (if decide (["p1"] = []) then NoPositiveSamples 1
                     else NoNonEmptyNegatives 1)).
Proof.
  apply (negative_count_is_validated ["p1"] [(1%Z, ["p1"]); (2%Z, [])] 1 (-5) (world0 [7])).
  - reflexivity.
  - right. intros tid negs Hin Hne.
    apply list_elem_of_In in Hin. simpl in Hin.
    destruct Hin as [[= <- <-]|[[= <- <-]|[]]]; done.
Defined.

(** C8.  The call leaves the objects of its caller as they were, whatever
    the arguments and whether it returns or raises: the store it ends in
    starts with the store it began in.  The list [positive_samples], the dict
    [all_samples] and the lists under its keys therefore hold after the call
    what they held before it. *)
Theorem pool_objects_unchanged
    (positive_samples all_samples : Objects.loc) (tid_positive num_samples : Z)
    (h : Objects.heap) :
  let h' :=
    (Objects.create_training_pairs positive_samples all_samples tid_positive num_samples h).2 in
  take (length (Objects.objects h)) (Objects.objects h') = Objects.objects h
  /\ (forall positive_values,
        Objects.holds_list (Objects.objects h) positive_samples positive_values ->
        Objects.holds_list (Objects.objects h') positive_samples positive_values)
  /\ (forall pool_values,
        Objects.holds_pool (Objects.objects h) all_samples pool_values ->
        Objects.holds_pool (Objects.objects h') all_samples pool_values).
Proof.
  intros h'. subst h'.
  set (h' := (Objects.create_training_pairs positive_samples all_samples tid_positive
                num_samples h).2).
  assert (Hkept : take (length (Objects.objects h)) (Objects.objects h') = Objects.objects h).
  { destruct (ObjectsFacts.frames_create_training_pairs
                (length (Objects.objects h)) (Objects.objects h)
                positive_samples all_samples tid_positive num_samples h) as [[_ Hkept] _];
      [|done].
    split; [done | by rewrite firstn_all]. }
  assert (Hlookup : forall l o,
            Objects.objects h !! l = Some o -> Objects.objects h' !! l = Some o).
  { intros l o Hl. rewrite <- Hkept in Hl. by apply lookup_take_Some in Hl as [? _]. }
  split; [done|]. split.
  - intros positive_values Hpos. by apply Hlookup.
  - intros pool_values (items & Hdict & Hitems). exists items. split; [by apply Hlookup|].
    eapply Forall2_impl; [exact Hitems|].
    intros item topic [Htid Hlist]. split; [done | by apply Hlookup].
Qed.

Lemma pool_objects_unchanged_witness :
  let h := Objects.example_heap [5; 0; 2] in
  let h' := (Objects.create_training_pairs 0 3 1 4 h).2 in
  Objects.holds_list (Objects.objects h') 0 ["p1"; "p2"]
  /\ Objects.holds_pool (Objects.objects h') 3 example_pool.
Proof.
  intros h h'.
  destruct (pool_objects_unchanged 0 3 1 4 h) as (_ & Hlist & Hpool). split.
  - apply Hlist. reflexivity.
  - apply Hpool. exists [(1%Z, 0); (2%Z, 1); (3%Z, 2)]. split; [reflexivity|].
    repeat constructor.
Defined.

(** ** Further properties of [create_training_pairs] *)

Module MoreFacts.
Import Pairs PyFacts PairsFacts Returns.

Lemma negative_lists_nonempty (all_samples : pool) (tid_positive : Z) :
  Forall (fun l => l <> []) (negative_lists all_samples tid_positive).
Proof.
  apply Forall_forall. intros l Hl.
  by apply elem_of_negative_lists in Hl as (tid & _ & _ & Hnil).
Qed.

(** The first round takes the first element of every list, as long as none
    is empty. *)
Lemma visit_first {A} (seqs : list (list A)) :
  Forall (fun l => l <> []) seqs ->
  Spec.visit 0 seqs = omap head seqs /\ length (omap head seqs) = length seqs.
Proof.
  unfold Spec.visit. induction 1 as [|l seqs Hl _ [IH1 IH2]]; [done|].
  destruct l as [|x l]; [done|]. csimpl. rewrite IH1. split; [done|]. simpl. lia.
Qed.

(** Position [a * len(negatives) + b] of the enumeration pairs positive [a]
    with negative [b]. *)
Lemma combinations_lookup (ps ns : list string) (a b : nat) (p n : string) :
  ps !! a = Some p -> ns !! b = Some n ->
  combinations ps ns !! (a * length ns + b) = Some (p, n).
Proof.
  rewrite combinations_prod. revert a.
  induction ps as [|p' ps IH]; intros a Hp Hn; [done|]. simpl.
  pose proof (lookup_lt_Some _ _ _ Hn) as Hb.
  destruct a as [|a]; simpl in *.
  - injection Hp as ->.
    rewrite lookup_app_l by (by rewrite length_fmap).
    by rewrite list_lookup_fmap, Hn.
  - rewrite lookup_app_r by (rewrite length_fmap; lia).
    rewrite length_fmap.
    replace (length ns + a * length ns + b - length ns) with (a * length ns + b) by lia.
    by apply IH.
Qed.

(** Leaving out of the pool the entry of the positive topic and the topics
    without representation changes nothing in the negative lists. *)
Lemma negative_lists_filter (all_samples : list (Z * list string)) (tid_positive : Z) :
  negative_lists
    (filter (fun item : Z * list string => item.1 <> tid_positive /\ item.2 <> []) all_samples)
    tid_positive
  = negative_lists all_samples tid_positive.
Proof.
  rewrite !negative_lists_contributing. unfold Spec.contributing.
  induction all_samples as [|item all_samples IH]; [done|].
  rewrite filter_cons. csimpl.
  destruct (decide (item.1 <> tid_positive /\ item.2 <> [])) as [Hitem|Hitem]; csimpl.
  - rewrite decide_True by done. by rewrite IH.
  - done.
Qed.

End MoreFacts.

Import MoreFacts PairsLog.

(** X1.  The interleaving neither drops nor repeats a negative sample: the
    interleaved sequence is a rearrangement of the negative lists put end to
    end, and the number of candidate pairs is the number of positive samples
    times the number of negative samples of the contributing topics. *)
Theorem interleaving_keeps_every_negative_sample
    (positive_samples : list string) (all_samples : pool) (tid_positive : Z) :
  interleaved_negatives all_samples tid_positive
  ≡ₚ concat (negative_lists all_samples tid_positive)
  /\ length (candidates positive_samples all_samples tid_positive)
     = length positive_samples * length (concat (negative_lists all_samples tid_positive)).
Proof.
  assert (Hperm : interleaved_negatives all_samples tid_positive
                  ≡ₚ concat (negative_lists all_samples tid_positive))
    by apply interleave_Permutation.
  split; [done|]. unfold candidates. by rewrite length_combinations, Hperm.
Qed.

(** X2.  The interleaved sequence starts with one sample of every contributing
    topic, in pool order: its first [len(negative_lists)] elements are the
    first elements of the negative lists. *)
Theorem first_round_takes_one_sample_per_topic (all_samples : pool) (tid_positive : Z) :
  take (length (negative_lists all_samples tid_positive))
       (interleaved_negatives all_samples tid_positive)
  = omap head (negative_lists all_samples tid_positive)
  /\ length (omap head (negative_lists all_samples tid_positive))
     = length (negative_lists all_samples tid_positive).
Proof.
  destruct (visit_first _ (negative_lists_nonempty all_samples tid_positive)) as [Hv Hlen].
  split; [|done]. unfold interleaved_negatives. rewrite interleave_rounds.
  destruct (negative_lists all_samples tid_positive) as [|l nls] eqn:E; [done|].
  assert (Hl : 0 < longest (l :: nls)).
  { pose proof (negative_lists_nonempty all_samples tid_positive) as Hne.
    rewrite E in Hne. apply Forall_cons in Hne as [Hne _].
    unfold longest. csimpl. destruct l; [done|]. simpl. lia. }
  unfold range. destruct (longest (l :: nls)) as [|m]; [lia|].
  cbn [seq flat_map]. rewrite Hv. apply take_app_length'. by rewrite Hlen.
Qed.

(** X3.  The candidate enumeration is positive-major: the pair of the positive
    sample at index [a] with the interleaved negative at index [b] sits at
    index [a * len(interleaved_negatives) + b]. *)
Theorem candidate_position
    (positive_samples : list string) (all_samples : pool) (tid_positive : Z)
    (a b : nat) (p n : string) :
  positive_samples !! a = Some p ->
  interleaved_negatives all_samples tid_positive !! b = Some n ->
  candidates positive_samples all_samples tid_positive
    !! (a * length (interleaved_negatives all_samples tid_positive) + b)
  = Some (p, n).
Proof. apply combinations_lookup. Qed.

Lemma candidate_position_witness :
  candidates ["p1"; "p2"] example_pool 1
    !! (1 * length (interleaved_negatives example_pool 1) + 2)
  = Some ("p2", "n3").
Proof.
  apply (candidate_position ["p1"; "p2"] example_pool 1 1 2 "p2" "n3"); reflexivity.
Defined.

(** X4.  Only the non-empty lists of the other topics count: the entry of the
    positive topic in the pool (the positive samples are those passed as
    argument) and the topics without representation can be left out of the
    pool without changing what the call does. *)
Theorem non_contributing_entries_are_ignored
    (positive_samples : list string) (all_samples : pool)
    (tid_positive num_samples : Z) (w : world) :
  create_training_pairs positive_samples
    (filter (fun item : Z * list string => item.1 <> tid_positive /\ item.2 <> []) all_samples)
    tid_positive num_samples w
  = create_training_pairs positive_samples all_samples tid_positive num_samples w.
Proof.
  unfold create_training_pairs. by rewrite negative_lists_filter.
Qed.

(** X5.  A count of zero on a valid pool returns the empty list silently:
    nothing is logged (unlike a negative count) and the random source is left
    as it was. *)
Theorem zero_count_returns_empty_silently
    (positive_samples : list string) (all_samples : pool) (tid_positive : Z) (w : world) :
  valid_pool positive_samples all_samples tid_positive ->
  create_training_pairs positive_samples all_samples tid_positive 0 w = (inr [], w).
Proof.
  intros valid. rewrite run_sample by (done || lia). unfold sample.
  destruct (Z.leb_spec 0 (Z.of_nat
              (length (candidates positive_samples all_samples tid_positive))));
    [reflexivity | lia].
Qed.

Lemma zero_count_returns_empty_silently_witness :
  create_training_pairs ["p1"; "p2"] example_pool 1 0 (world0 [5; 0; 2])
  = (inr [], world0 [5; 0; 2]).
Proof.
  apply (zero_count_returns_empty_silently ["p1"; "p2"] example_pool 1 (world0 [5; 0; 2])).
  valid_example 2%Z ["n1"].
Defined.

(** X6.  The log tells the outcome: a raised [ValueError] is logged first, at
    ERROR level with the same message; a returned list comes with one WARNING
    when the count is negative or exceeds the number of candidates, and with
    nothing otherwise.  Nothing else is ever logged. *)
Theorem log_follows_result
    (positive_samples : list string) (all_samples : pool)
    (tid_positive num_samples : Z) (w : world) :
  let run := create_training_pairs positive_samples all_samples tid_positive num_samples w in
  logged run.2
  = (logged w
     ++ expected_records positive_samples all_samples tid_positive num_samples run.1)%list.
Proof.
  intros run. subst run. unfold expected_records.
  destruct (decide (positive_samples = [])) as [Hpos|Hpos].
  { by rewrite run_empty_positive. }
  destruct (decide (negative_lists all_samples tid_positive = [])) as [Hneg|Hneg].
  { by rewrite run_no_negatives. }
  assert (valid : valid_pool positive_samples all_samples tid_positive)
    by (by apply valid_pool_negative_lists).
  destruct (Z.ltb_spec num_samples 0) as [Hn|Hn].
  { by rewrite run_negative_count. }
  destruct (Z.ltb_spec (Z.of_nat (length (candidates positive_samples all_samples
                                            tid_positive))) num_samples) as [Hgt|Hle].
  - by rewrite run_all_pairs.
  - rewrite run_sample by done.
    destruct (sample_spec (candidates positive_samples all_samples tid_positive)
                num_samples w ltac:(lia)) as (res & idxs & w' & -> & Hlog & _).
    cbn [fst snd]. by rewrite app_nil_r.
Qed.

(** X7.  The random source is read only to draw a sample: when the call
    raises, when the count is negative and when the count exceeds the number
    of candidates, the source is left as it was. *)
Theorem random_source_untouched_without_sampling
    (positive_samples : list string) (all_samples : pool)
    (tid_positive num_samples : Z) (w : world) :
  ~ (valid_pool positive_samples all_samples tid_positive
     /\ (0 <= num_samples
         <= Z.of_nat (length (candidates positive_samples all_samples tid_positive)))%Z) ->
  random_state
    (create_training_pairs positive_samples all_samples tid_positive num_samples w).2
  = random_state w.
Proof.
  intros Hno.
  destruct (decide (positive_samples = [])) as [Hpos|Hpos].
  { by rewrite run_empty_positive. }
  destruct (decide (negative_lists all_samples tid_positive = [])) as [Hneg|Hneg].
  { by rewrite run_no_negatives. }
  assert (valid : valid_pool positive_samples all_samples tid_positive)
    by (by apply valid_pool_negative_lists).
  destruct (Z_lt_dec num_samples 0) as [Hn|Hn].
  { by rewrite run_negative_count. }
  destruct (Z_lt_dec (Z.of_nat (length (candidates positive_samples all_samples
                                          tid_positive))) num_samples) as [Hgt|Hle].
  - by rewrite run_all_pairs.
  - exfalso. apply Hno. split; [done | lia].
Qed.

Lemma random_source_untouched_without_sampling_witness :
  random_state (create_training_pairs ["p1"; "p2"] example_pool 1 100 (world0 [5; 0; 2])).2
  = random_state (world0 [5; 0; 2]).
Proof.
  apply (random_source_untouched_without_sampling
           ["p1"; "p2"] example_pool 1 100 (world0 [5; 0; 2])).
  intros [_ [_ H]]. vm_compute in H. by apply H.
Defined.

(** X9.  The list the call returns is a new object, not one of its caller's:
    changing it afterwards cannot change the pool or the positive samples. *)
Theorem returned_list_is_a_new_object
    (positive_samples all_samples : Objects.loc) (tid_positive num_samples : Z)
    (h : Objects.heap) (l : Objects.loc) :
  (Objects.create_training_pairs positive_samples all_samples tid_positive num_samples h).1
  = inr l ->
  length (Objects.objects h) <= l.
Proof.
  intros Hrun.
  destruct (ObjectsFacts.frames_create_training_pairs
              (length (Objects.objects h)) (Objects.objects h)
              positive_samples all_samples tid_positive num_samples h) as [_ Hl].
  { split; [done | by rewrite firstn_all]. }
  by rewrite Hrun in Hl.
Qed.

Lemma returned_list_is_a_new_object_witness :
  length (Objects.objects (Objects.example_heap [5; 0; 2])) <= 7.
Proof.
  apply (returned_list_is_a_new_object 0 3 1 4 (Objects.example_heap [5; 0; 2]) 7).
  reflexivity.
Defined.

(** X10 is [ObjectsFacts.create_training_pairs_refines]: building the lists
    in place gives what building them as values gives, also when
    [positive_samples] is the very list the pool holds under the positive
    key, as in [create_topic_vector_training_samples]. *)
Lemma create_training_pairs_refines_witness :
  exists r h',
    Objects.create_training_pairs 0 3 1 4 (Objects.example_heap [5; 0; 2]) = (r, h')
    /\ Objects.outside h'
       = (create_training_pairs ["p1"; "p2"] example_pool 1 4
            (Objects.outside (Objects.example_heap [5; 0; 2]))).2
    /\ Objects.same_result (Objects.objects h') r
         (create_training_pairs ["p1"; "p2"] example_pool 1 4
            (Objects.outside (Objects.example_heap [5; 0; 2]))).1.
Proof.
  apply (ObjectsFacts.create_training_pairs_refines
           (Objects.example_heap [5; 0; 2]) 0 3 ["p1"; "p2"] example_pool 1 4).
  - reflexivity.
  - exists [(1%Z, 0); (2%Z, 1); (3%Z, 2)]. split; [reflexivity|]. repeat constructor.
Defined.

(** ** The callers: [create_topic_vector_training_samples] and the batch *)

Module OrchestrationFacts.
Import Pairs Orchestration.
Local Close Scope string_scope.

Lemma saved_app (cs1 cs2 : list call) : saved (cs1 ++ cs2) = saved cs1 ++ saved cs2.
Proof. apply omap_app. Qed.

(** A loop over two lists put end to end is the loop over the first followed,
    unless it fails, by the loop over the second. *)
Lemma for_in_app {A} (xs ys : list A) (body : A -> R unit) (s : state) :
  for_in (xs ++ ys) body s
  = match for_in xs body s with
    | (inl f, s') => (inl f, s')
    | (inr _, s') => for_in ys body s'
    end.
Proof.
  revert s. induction xs as [|x xs IH]; intros s; [done|].
  simpl. unfold Orchestration.bind.
  destruct (body x s) as [[f|[]] s1]; [done|]. apply IH.
Qed.

(** One run of [create_topic_vector_training_samples]: the calls it adds to
    the completed ones, by outcome. *)
Lemma run_calls (env : environment) (topic_representation_type : string)
    (num_samples tid : Z) (pairing_type : string) (s : state) :
  let run := create_topic_vector_training_samples env topic_representation_type
               num_samples tid pairing_type s in
  exists new,
    completed run.2 = completed s ++ new
    /\ match run.1 with
       | inr training_samples =>
           new = [ValidateTopicRepresentationType topic_representation_type;
                  ValidatePairingType pairing_type;
                  LoadTopicRepresentations topic_representation_type;
                  SaveTopicVectorTrainingSamples training_samples
                    topic_representation_type pairing_type tid]
       | inl _ => saved new = []
       end.
Proof.
  unfold create_topic_vector_training_samples, Orchestration.bind, perform,
    load_topic_representations, subscript, lift, Orchestration.ret, fail.
  cbn [completed outside].
  destruct (answer env (completed s)
              (ValidateTopicRepresentationType topic_representation_type)) as [what|].
  { exists []. by rewrite app_nil_r. }
  cbn [completed outside].
  destruct (answer env (completed s ++ [ValidateTopicRepresentationType
                                          topic_representation_type])
              (ValidatePairingType pairing_type)) as [what|].
  { eexists [_]. done. }
  cbn [completed outside].
  destruct (loaded env _ topic_representation_type) as [what|topic_representations].
  { eexists [_; _]. split; [by rewrite <- app_assoc | done]. }
  cbn [completed outside].
  destruct (lookup_topic topic_representations tid) as [positive_samples|];
    cbn [completed outside]; [|eexists [_; _; _]; by rewrite <- !app_assoc].
  destruct (create_training_pairs positive_samples topic_representations tid num_samples
              (outside s)) as [[e|training_samples] w']; cbn [completed outside].
  { eexists [_; _; _]. by rewrite <- !app_assoc. }
  destruct (answer env _ (SaveTopicVectorTrainingSamples training_samples
                            topic_representation_type pairing_type tid)) as [what|];
    cbn [completed outside fst snd].
  - eexists [_; _; _]. by rewrite <- !app_assoc.
  - eexists [_; _; _; _]. by rewrite <- !app_assoc.
Qed.

(** The loop over the topic ids of one representation type saves the jobs of
    that type in order, all of them when it returns. *)
Lemma topic_loop_saved (env : environment) (t : string) (num_samples : Z)
    (tids : list Z) (s : state) :
  let run :=
    for_in tids
      (fun tid =>
         Orchestration.bind
           (create_topic_vector_training_samples env t num_samples tid
              "against_random_topic_representation")
           (fun _ => Orchestration.ret tt)) s in
  exists new,
    completed run.2 = completed s ++ new
    /\ saved new `prefix_of`
         ((fun tid => (t, "against_random_topic_representation"%string, tid)) <$> tids)
    /\ (run.1 = inr tt ->
        saved new
        = (fun tid => (t, "against_random_topic_representation"%string, tid)) <$> tids).
Proof.
  revert s. induction tids as [|tid tids IH]; intros s run.
  - exists []. subst run. simpl. rewrite app_nil_r. done.
  - destruct (run_calls env t num_samples tid "against_random_topic_representation" s)
      as (new1 & Hnew1 & Hcase).
    cbv zeta in Hcase, Hnew1.
    destruct (create_topic_vector_training_samples env t num_samples tid
                "against_random_topic_representation" s) as [[f|training_samples] s1] eqn:E;
      cbn [fst snd] in Hnew1, Hcase.
    + assert (Hrun : run = (inl f, s1)).
      { subst run. cbn [for_in]. unfold Orchestration.bind at 1 2. by rewrite E. }
      rewrite Hrun. exists new1. rewrite Hcase. split; [done|].
      split; [apply prefix_nil | done].
    + destruct (IH s1) as (new2 & Hnew2 & Hpre & Hall). cbv zeta in Hnew2, Hpre, Hall.
      assert (Hrun : run = for_in tids
                (fun tid =>
                   Orchestration.bind
                     (create_topic_vector_training_samples env t num_samples tid
                        "against_random_topic_representation")
                     (fun _ => Orchestration.ret tt)) s1).
      { subst run. cbn [for_in]. unfold Orchestration.bind at 1 2. by rewrite E. }
      rewrite Hrun.
      exists (new1 ++ new2). rewrite Hnew2, Hnew1, app_assoc. split; [done|].
      rewrite saved_app, Hcase, fmap_cons. cbn [saved omap app].
      split.
      * by apply (prefix_app [_]).
      * intros Hret. by rewrite (Hall Hret).
Qed.

Lemma bind_singleton {A B} (f : A -> B) (xs : list A) :
  (x ← xs; [f x]) = f <$> xs.
Proof. induction xs as [|x xs IH]; [done|]. csimpl. by rewrite IH. Qed.

(** The same for the whole batch. *)
Lemma batch_saved (env : environment) (config : ExperimentConfig) (s : state) :
  let run := create_all_topic_vector_training_samples env config s in
  exists new,
    completed run.2 = completed s ++ new
    /\ saved new `prefix_of` jobs config
    /\ (run.1 = inr tt -> saved new = jobs config).
Proof.
  unfold create_all_topic_vector_training_samples, jobs.
  cbv zeta.
  revert s. induction (TOPIC_REPRESENTATION_TYPES config) as [|t ts IH]; intros s.
  - exists []. simpl. rewrite app_nil_r. done.
  - rewrite bind_cons, bind_singleton. cbn [for_in].
    destruct (List.find (fun item => String.eqb item.1 t)
                (TOPIC_REPRESENTATION_TYPE_NUM_SAMPLES config)) as [item|] eqn:F.
    + assert (Hn : num_samples_of config t s = (inr item.2, s))
        by (unfold num_samples_of; by rewrite F).
      destruct (topic_loop_saved env t item.2 (TOPIC_IDS config) s)
        as (new1 & Hnew1 & Hpre1 & Hall1). cbv zeta in Hnew1, Hpre1, Hall1.
      destruct (for_in (TOPIC_IDS config) _ s) as [[f|[]] s1] eqn:E; cbn [fst snd] in *.
      * assert (Hrun : forall k : unit -> R unit,
                  Orchestration.bind
                    (Orchestration.bind (num_samples_of config t)
                       (fun num_samples =>
                          for_in (TOPIC_IDS config)
                            (fun tid =>
                               Orchestration.bind
                                 (create_topic_vector_training_samples env t num_samples
                                    tid "against_random_topic_representation")
                                 (fun _ => Orchestration.ret tt)))) k s
                  = (inl f, s1)).
        { intros k. unfold Orchestration.bind at 1 2. by rewrite Hn, E. }
        rewrite Hrun. exists new1. split; [done|]. split; [by apply prefix_app_r | done].
      * assert (Hrun : forall k : unit -> R unit,
                  Orchestration.bind
                    (Orchestration.bind (num_samples_of config t)
                       (fun num_samples =>
                          for_in (TOPIC_IDS config)
                            (fun tid =>
                               Orchestration.bind
                                 (create_topic_vector_training_samples env t num_samples
                                    tid "against_random_topic_representation")
                                 (fun _ => Orchestration.ret tt)))) k s
                  = k tt s1).
        { intros k. unfold Orchestration.bind at 1 2. by rewrite Hn, E. }
        rewrite Hrun.
        destruct (IH s1) as (new2 & Hnew2 & Hpre2 & Hall2).
        exists (new1 ++ new2). rewrite Hnew2, Hnew1, app_assoc. split; [done|].
        rewrite saved_app, (Hall1 eq_refl).
        split; [by apply prefix_app|]. intros Hret. by rewrite (Hall2 Hret).
    + assert (Hrun : forall k : unit -> R unit,
                Orchestration.bind
                  (Orchestration.bind (num_samples_of config t)
                     (fun num_samples =>
                        for_in (TOPIC_IDS config)
                          (fun tid =>
                             Orchestration.bind
                               (create_topic_vector_training_samples env t num_samples
                                  tid "against_random_topic_representation")
                               (fun _ => Orchestration.ret tt)))) k s
                = (inl (KeyErrorType t), s)).
      { intros k. unfold Orchestration.bind at 1 2. unfold num_samples_of. by rewrite F. }
      rewrite Hrun.
      exists []. rewrite app_nil_r. split; [done|]. split; [apply prefix_nil | done].
Qed.

End OrchestrationFacts.

Import Orchestration OrchestrationFacts.

(** X11.  [create_topic_vector_training_samples] saves exactly what it
    returns, once, after validating and loading; a run that fails, for any
    reason and at any point, has saved nothing. *)
Theorem saves_exactly_what_it_returns
    (env : environment) (topic_representation_type : string)
    (num_samples tid : Z) (pairing_type : string) (s : state) :
  let run := create_topic_vector_training_samples env topic_representation_type
               num_samples tid pairing_type s in
  exists new,
    completed run.2 = (completed s ++ new)%list
    /\ match run.1 with
       | inr training_samples =>
           new = [ValidateTopicRepresentationType topic_representation_type;
                  ValidatePairingType pairing_type;
                  LoadTopicRepresentations topic_representation_type;
                  SaveTopicVectorTrainingSamples training_samples
                    topic_representation_type pairing_type tid]
       | inl _ => saved new = []
       end.
Proof. apply run_calls. Qed.

(** X12.  The validations come first: when the representation type is
    refused nothing else is called, and when the pairing type is refused
    nothing is loaded; either way the log and the random source are left as
    they were. *)
Theorem validation_comes_first
    (env : environment) (topic_representation_type : string)
    (num_samples tid : Z) (pairing_type : string) (s : state) (what : string) :
  (answer env (completed s) (ValidateTopicRepresentationType topic_representation_type)
   = Some what ->
   create_topic_vector_training_samples env topic_representation_type
     num_samples tid pairing_type s
   = (inl (Collaborator (ValidateTopicRepresentationType topic_representation_type) what),
      s))
  /\ (answer env (completed s) (ValidateTopicRepresentationType topic_representation_type)
      = None ->
      answer env
        (completed s ++ [ValidateTopicRepresentationType topic_representation_type])%list
        (ValidatePairingType pairing_type)
      = Some what ->
      create_topic_vector_training_samples env topic_representation_type
        num_samples tid pairing_type s
      = (inl (Collaborator (ValidatePairingType pairing_type) what),
         State (completed s ++ [ValidateTopicRepresentationType topic_representation_type])
               (outside s))).
Proof.
  unfold create_topic_vector_training_samples, Orchestration.bind, perform.
  split.
  - by intros ->.
  - intros -> Hp. cbn [completed outside]. by rewrite Hp.
Qed.

Lemma validation_comes_first_witness :
  create_topic_vector_training_samples strict_environment "sentences" 4 1
    "against_random_topic_representation" (state0 [5; 0; 2])
  = (inl (Collaborator (ValidateTopicRepresentationType "sentences")
            "invalid topic representation type"),
     state0 [5; 0; 2])
  /\ create_topic_vector_training_samples strict_environment "words" 4 1
       "against_random_string" (state0 [5; 0; 2])
     = (inl (Collaborator (ValidatePairingType "against_random_string")
               "invalid pairing type"),
        State [ValidateTopicRepresentationType "words"] (world0 [5; 0; 2])).
Proof.
  split.
  - by apply (validation_comes_first strict_environment "sentences" 4 1
                "against_random_topic_representation" (state0 [5; 0; 2])).
  - by apply (validation_comes_first strict_environment "words" 4 1
                "against_random_string" (state0 [5; 0; 2])).
Defined.

(** X13.  A topic id that is not a key of the loaded pool raises [KeyError]
    before [create_training_pairs] is called: no pair is built, nothing is
    logged, drawn or saved. *)
Theorem missing_topic_id_raises_key_error
    (env : environment) (topic_representation_type : string)
    (num_samples tid : Z) (pairing_type : string) (s : state)
    (topic_representations : pool) :
  accepts env (completed s) topic_representation_type pairing_type ->
  loads env (completed s) topic_representation_type pairing_type topic_representations ->
  lookup_topic topic_representations tid = None ->
  create_topic_vector_training_samples env topic_representation_type
    num_samples tid pairing_type s
  = (inl (KeyErrorTid tid),
     State (after_load (completed s) topic_representation_type pairing_type) (outside s)).
Proof.
  intros [Ht Hp] Hload Hkey.
  unfold create_topic_vector_training_samples, Orchestration.bind, perform,
    load_topic_representations, subscript, after_load.
  rewrite Ht. cbn [completed outside]. rewrite Hp. cbn [completed outside].
  unfold loads in Hload. rewrite <- app_assoc. cbn [app]. rewrite Hload, Hkey.
  cbn [completed outside fail]. by rewrite <- app_assoc.
Qed.

Lemma missing_topic_id_raises_key_error_witness :
  create_topic_vector_training_samples example_environment "words" 4 9
    "against_random_topic_representation" (state0 [5; 0; 2])
  = (inl (KeyErrorTid 9),
     State (after_load [] "words" "against_random_topic_representation") (world0 [5; 0; 2])).
Proof.
  by apply (missing_topic_id_raises_key_error example_environment "words" 4 9
              "against_random_topic_representation" (state0 [5; 0; 2]) example_pool).
Defined.

(** X14.  Past the validations, the load and the subscript, the caller does
    what [create_training_pairs] does on the samples of the topic and the
    loaded pool: the same log and draws; its exception, with nothing saved; or
    its list, returned once it is saved. *)
Theorem caller_runs_create_training_pairs
    (env : environment) (topic_representation_type : string)
    (num_samples tid : Z) (pairing_type : string) (s : state)
    (topic_representations : pool) (positive_samples : list string) :
  accepts env (completed s) topic_representation_type pairing_type ->
  loads env (completed s) topic_representation_type pairing_type topic_representations ->
  lookup_topic topic_representations tid = Some positive_samples ->
  let pairs :=
    create_training_pairs positive_samples topic_representations tid num_samples (outside s) in
  let run :=
    create_topic_vector_training_samples env topic_representation_type
      num_samples tid pairing_type s in
  let cs := after_load (completed s) topic_representation_type pairing_type in
  outside run.2 = pairs.2
  /\ match pairs.1 with
     | inl e => run = (inl (Raised e), State cs pairs.2)
     | inr training_samples =>
         let save := SaveTopicVectorTrainingSamples training_samples
                       topic_representation_type pairing_type tid in
         match answer env cs save with
         | None => run = (inr training_samples, State (cs ++ [save]) pairs.2)
         | Some what => run = (inl (Collaborator save what), State cs pairs.2)
         end
     end.
Proof.
  intros [Ht Hp] Hload Hkey pairs run cs. subst pairs run cs.
  unfold create_topic_vector_training_samples, Orchestration.bind, perform,
    load_topic_representations, subscript, lift, after_load.
  rewrite Ht. cbn [completed outside]. rewrite Hp. cbn [completed outside].
  unfold loads in Hload. rewrite <- app_assoc. cbn [app]. rewrite Hload, Hkey.
  cbn [completed outside Orchestration.ret].
  destruct (create_training_pairs positive_samples topic_representations tid num_samples
              (outside s)) as [[e|training_samples] w'];
    cbn [completed outside fst snd]; rewrite <- !app_assoc; cbn [app]; [done|].
  destruct (answer env _ (SaveTopicVectorTrainingSamples training_samples
                            topic_representation_type pairing_type tid));
    split; reflexivity.
Qed.

Lemma caller_runs_create_training_pairs_witness :
  let pairs := create_training_pairs ["p1"; "p2"] example_pool 1 4 (world0 [5; 0; 2]) in
  let run := create_topic_vector_training_samples example_environment "words" 4 1
               "against_random_topic_representation" (state0 [5; 0; 2]) in
  let cs := after_load [] "words" "against_random_topic_representation" in
  outside run.2 = pairs.2
  /\ match pairs.1 with
     | inl e => run = (inl (Raised e), State cs pairs.2)
     | inr training_samples =>
         let save := SaveTopicVectorTrainingSamples training_samples "words"
                       "against_random_topic_representation" 1 in
         match answer example_environment cs save with
         | None => run = (inr training_samples, State (cs ++ [save])%list pairs.2)
         | Some what => run = (inl (Collaborator save what), State cs pairs.2)
         end
     end.
Proof.
  by apply (caller_runs_create_training_pairs example_environment "words" 4 1
              "against_random_topic_representation" (state0 [5; 0; 2])
              example_pool ["p1"; "p2"]).
Defined.

(** X15.  The batch saves its jobs in the order of its loops (representation
    types outside, topic ids inside), each once and with the pairing type
    "against_random_topic_representation": what a batch has saved is a prefix
    of the job list, and the whole list when the batch returns.  The first
    failure ends the batch. *)
Theorem batch_saves_jobs_in_order
    (env : environment) (config : ExperimentConfig) (s : state) :
  let run := create_all_topic_vector_training_samples env config s in
  exists new,
    completed run.2 = (completed s ++ new)%list
    /\ saved new `prefix_of` jobs config
    /\ (run.1 = inr tt -> saved new = jobs config).
Proof. apply batch_saved. Qed.

Lemma batch_saves_jobs_in_order_witness :
  exists new,
    completed (create_all_topic_vector_training_samples example_environment example_config
                 (state0 [5; 0; 2; 1; 1; 1; 1])).2
    = new
    /\ saved new = jobs example_config.
Proof.
  destruct (batch_saves_jobs_in_order example_environment example_config
              (state0 [5; 0; 2; 1; 1; 1; 1])) as (new & Hnew & _ & Hall).
  exists new. split; [exact Hnew | by apply Hall].
Defined.

(** X16.  The batch over the representation types [ts1 ++ ts2] is the batch
    over [ts1] followed by the batch over [ts2]; when the first raises, the
    second is not run. *)
Theorem batch_composes
    (env : environment) (config : ExperimentConfig) (ts1 ts2 : list string) (s : state) :
  create_all_topic_vector_training_samples env (with_types config (ts1 ++ ts2)) s
  = match create_all_topic_vector_training_samples env (with_types config ts1) s with
    | (inl f, s') => (inl f, s')
    | (inr _, s') => create_all_topic_vector_training_samples env (with_types config ts2) s'
    end.
Proof.
  unfold create_all_topic_vector_training_samples. cbn [with_types TOPIC_REPRESENTATION_TYPES].
  apply for_in_app.
Qed.

(** * Scoring the generated summaries *)

Module ScoringFacts.
Import Json Scoring Inputs.

Lemma bind_run {A B} (m : S A) (k : A -> S B) s a s' :
  m s = (inr a, s') -> bind m k s = k a s'.
Proof. unfold bind. by intros ->. Qed.

Lemma bind_raise {A B} (m : S A) (k : A -> S B) s e s' :
  m s = (inl e, s') -> bind m k s = (inl e, s').
Proof. unfold bind. by intros ->. Qed.

Lemma for_in_append {A L} (xs ys : list A) (body : L -> A -> S L) locals s :
  for_in (xs ++ ys)%list body locals s
  = bind (for_in xs body locals) (for_in ys body) s.
Proof.
  revert locals s. induction xs as [|x xs IH]; intros locals s; [reflexivity|].
  cbn [app for_in]. unfold bind.
  destruct (body locals x s) as [[e|locals'] s1]; [reflexivity|]. apply IH.
Qed.

(** ** Dicts *)

Lemma dict_in_keys k (d : dict) : dict_in k d = true <-> k ∈ keys d.
Proof.
  unfold dict_in, keys. induction d as [|[k' v] d IH]; csimpl.
  - split; [done | by intros ?%elem_of_nil].
  - rewrite elem_of_cons. destruct (String.eqb_spec k' k) as [->|Hne].
    + split; auto.
    + rewrite IH. split; [auto | intros [?|?]; congruence].
Qed.

Lemma dict_in_absent k (d : dict) : dict_in k d = false <-> k ∉ keys d.
Proof.
  rewrite <- dict_in_keys. by destruct (dict_in k d).
Qed.

Lemma dict_set_absent k v (d : dict) :
  k ∉ keys d -> dict_set k v d = (d ++ [(k, v)])%list.
Proof.
  unfold keys. induction d as [|[k' v'] d IH]; csimpl; [done|].
  rewrite not_elem_of_cons. intros [Hne Hk].
  destruct (String.eqb_spec k' k) as [->|_]; [done|]. by rewrite IH.
Qed.

Lemma keys_dict_set k v (d : dict) :
  keys (dict_set k v d) = if dict_in k d then keys d else (keys d ++ [k])%list.
Proof.
  unfold keys, dict_in. induction d as [|[k' v'] d IH]; csimpl; [done|].
  destruct (String.eqb_spec k' k) as [->|_]; csimpl; [done|].
  rewrite IH. by destruct (dict_get k d).
Qed.

Lemma dict_get_set k v (d : dict) : dict_get k (dict_set k v d) = Some v.
Proof.
  induction d as [|[k' v'] d IH]; simpl.
  - by rewrite String.eqb_refl.
  - destruct (String.eqb_spec k' k) as [->|Hne]; simpl.
    + by rewrite String.eqb_refl.
    + by destruct (String.eqb_spec k' k).
Qed.

Lemma dict_get_set_other k k' v (d : dict) :
  k <> k' -> dict_get k' (dict_set k v d) = dict_get k' d.
Proof.
  intros Hne. induction d as [|[k0 v0] d IH]; simpl.
  - by destruct (String.eqb_spec k k').
  - destruct (String.eqb_spec k0 k) as [->|Hne0]; simpl.
    + by destruct (String.eqb_spec k k').
    + by rewrite IH.
Qed.

(** ** Steps 1 and 2 *)

Lemma is_usable_usable env path :
  is_usable env path = true <-> exists ei gs, usable env path ei gs.
Proof.
  unfold is_usable, usable. split.
  - destruct (scorer_init env); try done.
    destruct (read env path) as [| | |[| | | | | |d]]; try done.
    destruct (dict_get "experiment_information" d) as [ei|] eqn:Hei; try done.
    destruct (dict_get "generated_summaries" d) as [[| | | | | |gs]|] eqn:Hgs; try done.
    intros _. eauto 10.
  - intros (ei & gs & -> & d & -> & -> & ->). done.
Qed.

Lemma loaded_none env path s old m :
  is_usable env path = false ->
  loaded env path s
    (inr None, State (calls s) (records s ++ (old ++ [(ERROR, m)]))%list (written s)).
Proof.
  intros Hno. exists None, (State (calls s) (records s ++ (old ++ [(ERROR, m)]))%list (written s)),
    (old ++ [(ERROR, m)])%list.
  repeat split; eauto.
Qed.

(** A branch of [load_input] that ends in [None]. *)
Local Ltac stop :=
  cbn [calls records written]; rewrite <- ?app_assoc;
  first [ apply (loaded_none _ _ _ []) | apply (loaded_none _ _ _ [_])
        | apply (loaded_none _ _ _ [_; _]) | apply (loaded_none _ _ _ [_; _; _]) ];
  unfold is_usable;
  repeat match goal with H : ?x = _ |- context [?x] => rewrite H end;
  done.

Lemma load_input_spec import_error env path s :
  loaded env path s (load_input import_error env path s).
Proof.
  unfold load_input, bind, log, ret. cbn [calls records written].
  destruct (scorer_init env) eqn:Hinit.
  2: { destruct import_error; stop. }
  2: { stop. }
  destruct (read env path) as [| | |input_data] eqn:Hread; cbn [calls records written].
  1-3: stop.
  destruct input_data as [| | | |str|l|d]; cbn [contains subscript].
  1-4: stop.
  - destruct (index 0 "experiment_information" str);
      [destruct (index 0 "generated_summaries" str)|]; stop.
  - destruct (existsb _ l); [destruct (existsb _ l)|]; stop.
  - unfold dict_in.
    destruct (dict_get "experiment_information" d) as [ei|] eqn:Hei; [|stop].
    destruct (dict_get "generated_summaries" d) as [gs|] eqn:Hgs; [|stop].
    destruct gs as [| | | | | |gs]; cbn [calls records written].
    1-6: stop.
    eexists (Some _), _, _. split; [reflexivity|]. cbn [calls records written].
    rewrite <- !app_assoc. split; [done|]. split; [done|]. split; [reflexivity|].
    exists d, ei, gs. unfold usable. eauto 10.
Qed.

(** ** The steered file *)

Section Steered.
Import Steered.
Variable env : environment.

Lemma requests_cons t1 t2 r1 r2 (item : string * pyval) (summaries : dict) :
  requests t1 t2 r1 r2 (item :: summaries)
  = (requests t1 t2 r1 r2 [item] ++ requests t1 t2 r1 r2 summaries)%list.
Proof. unfold requests. csimpl. by destruct (item.2). Qed.

Lemma summary_scores_cons t1 t2 r1 r2 cs k v (summaries : dict) :
  summary_scores env t1 t2 r1 r2 cs ((k, v) :: summaries)
  = (k, summary_score env t1 t2 r1 r2 cs v)
    :: summary_scores env t1 t2 r1 r2 (cs ++ requests t1 t2 r1 r2 [(k, v)]) summaries.
Proof.
  unfold summary_scores. rewrite imap_cons. cbn [take fst snd].
  f_equal.
  - change (requests t1 t2 r1 r2 []) with (@nil scorer_call). by rewrite app_nil_r.
  - apply imap_ext. intros i item _. cbn [compose take].
    by rewrite requests_cons, app_assoc.
Qed.

Lemma article_scores_cons cs k article (articles : dict) :
  article_scores env cs ((k, article) :: articles)
  = (k, article_score env cs article)
    :: article_scores env (cs ++ article_requests article) articles.
Proof.
  unfold article_scores. rewrite imap_cons. cbn [take flat_map fst snd].
  f_equal.
  - by rewrite app_nil_r.
  - apply imap_ext. intros j item _. cbn [compose take flat_map snd].
    by rewrite app_assoc.
Qed.

Lemma score_summary_spec a t1 t2 r1 r2 (scores : dict) k v s :
  exists s',
    score_summary env a t1 t2 r1 r2 scores (k, v) s
    = (inr (dict_set k (summary_score env t1 t2 r1 r2 (calls s) v) scores), s')
    /\ calls s' = (calls s ++ requests t1 t2 r1 r2 [(k, v)])%list
    /\ written s' = written s.
Proof.
  unfold score_summary, summary_score, requests, bind, call_scorer, log, ret.
  destruct v as [| | | |text| |]; csimpl;
    try (eexists; cbn [calls written]; rewrite ?app_nil_r; by eauto).
  destruct (score env (calls s) (ScoreIndividualText text t1 t2 r1 r2)) as [e|d];
    eexists; cbn [calls written]; by eauto.
Qed.

Lemma score_summaries_spec a t1 t2 r1 r2 (summaries : dict) :
  forall (scores : dict) s,
  exists scores' s',
    for_in summaries (score_summary env a t1 t2 r1 r2) scores s = (inr scores', s')
    /\ calls s' = (calls s ++ requests t1 t2 r1 r2 summaries)%list
    /\ written s' = written s
    /\ (NoDup (keys scores ++ keys summaries) ->
        scores' = (scores ++ summary_scores env t1 t2 r1 r2 (calls s) summaries)%list).
Proof.
  induction summaries as [|[k v] summaries IH]; intros scores s.
  - exists scores, s. cbn [for_in ret]. unfold requests, summary_scores. csimpl.
    rewrite !app_nil_r. repeat split; eauto.
  - cbn [for_in].
    destruct (score_summary_spec a t1 t2 r1 r2 scores k v s) as (s1 & Hrun & Hc & Hw).
    destruct (IH (dict_set k (summary_score env t1 t2 r1 r2 (calls s) v) scores) s1)
      as (scores' & s' & Hrest & Hc' & Hw' & Hnew).
    exists scores', s'. rewrite (bind_run _ _ _ _ _ Hrun).
    split; [exact Hrest|]. split.
    { by rewrite Hc', Hc, <- app_assoc, <- requests_cons. }
    split; [congruence|].
    unfold keys in *. csimpl. intros Hnodup.
    assert (Hk : k ∉ scores.*1).
    { apply NoDup_app in Hnodup as (_ & Hdisj & _). intros Hin.
      apply (Hdisj _ Hin). apply elem_of_cons. by left. }
    rewrite (dict_set_absent k _ scores Hk) in Hnew.
    rewrite Hnew, Hc, summary_scores_cons, <- app_assoc; [done|].
    rewrite fmap_app, <- app_assoc. exact Hnodup.
Qed.

Lemma score_article_dict total n (scored : dict) k article s :
  is_dict article = true ->
  exists x s',
    score_article env total (n, scored) (k, article) s
    = (inr (n + 1, dict_set k x scored), s')
    /\ calls s' = (calls s ++ article_requests article)%list
    /\ written s' = written s
    /\ (distinct_summary_keys article -> x = article_score env (calls s) article).
Proof.
  destruct article as [| | | | | |d]; try done. intros _.
  unfold score_article, distinct_summary_keys, article_score, article_requests,
    summaries_of, field.
  unfold bind at 1 2 3 4 5 6. unfold log, lift, get. cbn [fst snd].
  destruct (dict_get "summaries" d) as [summaries|] eqn:Hsummaries.
  2: { eexists (PDict []), _. cbn [for_in bind ret calls written requests omap].
       unfold bind, ret. cbn [calls written]. rewrite app_nil_r.
       repeat split; eauto. }
  destruct summaries as [| | | | | |summaries];
    try (eexists PNone, _; unfold bind, log, ret; cbn [calls written];
         rewrite ?app_nil_r; by eauto).
  match goal with
  | |- context [bind (for_in summaries _ []) _ ?s1] =>
      destruct (score_summaries_spec k
                  (match dict_get "tid1" d with Some x => x | None => PNone end)
                  (match dict_get "tid2" d with Some x => x | None => PNone end)
                  (match dict_get "summary1" d with Some x => x | None => PNone end)
                  (match dict_get "summary2" d with Some x => x | None => PNone end)
                  summaries [] s1)
        as (scores & s' & Hrun & Hc & Hw & Hnew)
  end.
  exists (PDict scores), s'. rewrite (bind_run _ _ _ _ _ Hrun). unfold ret.
  split; [done|]. split; [exact Hc|]. split; [exact Hw|].
  intros Hnodup. f_equal. rewrite Hnew; [done|]. by apply Hnodup.
Qed.

Lemma score_article_not_dict total n (scored : dict) k article s :
  is_dict article = false ->
  exists s',
    score_article env total (n, scored) (k, article) s = (inl AttributeError, s')
    /\ calls s' = calls s /\ written s' = written s.
Proof.
  intros Hno. unfold score_article, bind, log, lift, get.
  destruct article; try done; by eexists.
Qed.

Lemma score_articles_spec total (articles : dict) :
  Forall (fun item => is_dict item.2 = true) articles ->
  forall n (scored : dict) s,
  exists scored' s',
    for_in articles (score_article env total) (n, scored) s
    = (inr (n + length articles, scored'), s')
    /\ calls s' = (calls s ++ flat_map (fun item => article_requests item.2) articles)%list
    /\ written s' = written s
    /\ (NoDup (keys scored ++ keys articles) ->
        Forall (fun item => distinct_summary_keys item.2) articles ->
        scored' = (scored ++ article_scores env (calls s) articles)%list).
Proof.
  induction 1 as [|[k article] articles Hdict _ IH]; intros n scored s.
  - exists scored, s. cbn [for_in ret length flat_map]. unfold article_scores. csimpl.
    rewrite !app_nil_r, Nat.add_0_r. repeat split; eauto.
  - cbn [for_in].
    destruct (score_article_dict total n scored k article s Hdict)
      as (x & s1 & Hrun & Hc & Hw & Hx).
    destruct (IH (n + 1) (dict_set k x scored) s1) as (scored' & s' & Hrest & Hc' & Hw' & Hnew).
    exists scored', s'. rewrite (bind_run _ _ _ _ _ Hrun).
    split. { rewrite Hrest. cbn [length]. do 3 f_equal. lia. }
    split. { rewrite Hc', Hc, <- app_assoc. done. }
    split; [congruence|].
    unfold keys in *. csimpl. intros Hnodup Hdistinct.
    apply Forall_cons in Hdistinct as [Harticle Hdistinct]. cbn [snd] in Harticle.
    assert (Hk : k ∉ scored.*1).
    { apply NoDup_app in Hnodup as (_ & Hdisj & _). intros Hin.
      apply (Hdisj _ Hin). apply elem_of_cons. by left. }
    rewrite (dict_set_absent k x scored Hk) in Hnew.
    rewrite Hnew, Hc, article_scores_cons, (Hx Harticle), <- app_assoc; [done| |done].
    rewrite fmap_app, <- app_assoc. exact Hnodup.
Qed.

Lemma steered_run path ei (gs : dict) s :
  usable env path ei gs ->
  Forall (fun item => is_dict item.2 = true) gs ->
  exists scored s',
    score_newts_summaries env path s = (inr (output_data ei gs scored), s')
    /\ calls s' = (calls s ++ flat_map (fun item => article_requests item.2) gs)%list
    /\ written s' = written s
    /\ (NoDup (keys gs) ->
        Forall (fun item => distinct_summary_keys item.2) gs ->
        scored = article_scores env (calls s) gs).
Proof.
  intros Husable Hdicts. unfold score_newts_summaries.
  destruct (load_input_spec false env path s)
    as (r & s1 & new & Hrun & Hc & Hw & _ & Hr).
  rewrite (bind_run _ _ _ _ _ Hrun).
  destruct r as [input_data|].
  2: { destruct Hr as [Hno _]. exfalso.
       assert (is_usable env path = true) by (apply is_usable_usable; eauto).
       congruence. }
  destruct Hr as (d & ei' & gs' & -> & _ & Hread & Hei & Hgs).
  destruct Husable as (_ & d' & Hread' & Hei' & Hgs').
  assert (d' = d) as -> by congruence.
  assert (ei' = ei) as -> by congruence.
  assert (gs' = gs) as -> by congruence.
  unfold unpack, bind at 1 2 3 4, lift, subscript, items, ret. rewrite Hei, Hgs.
  unfold bind at 1, log.
  match goal with
  | |- context [bind (for_in gs _ _) _ ?s2] =>
      destruct (score_articles_spec (length gs) gs Hdicts 0 [] s2)
        as (scored & s' & Hloop & Hc' & Hw' & Hnew)
  end.
  rewrite (bind_run _ _ _ _ _ Hloop). unfold bind, log, ret.
  eexists scored, _. split; [reflexivity|]. cbn [calls written] in *.
  split; [congruence|]. split; [congruence|].
  intros Hnodup Hdistinct. rewrite (Hnew Hnodup Hdistinct). cbn [app calls].
  by rewrite Hc.
Qed.

Lemma steered_raises path ei (pre post : dict) k v s :
  usable env path ei (pre ++ (k, v) :: post)%list ->
  Forall (fun item => is_dict item.2 = true) pre ->
  is_dict v = false ->
  exists s',
    score_newts_summaries env path s = (inl AttributeError, s')
    /\ calls s' = (calls s ++ flat_map (fun item => article_requests item.2) pre)%list
    /\ written s' = written s.
Proof.
  intros Husable Hdicts Hv. unfold score_newts_summaries.
  destruct (load_input_spec false env path s)
    as (r & s1 & new & Hrun & Hc & Hw & _ & Hr).
  rewrite (bind_run _ _ _ _ _ Hrun).
  destruct r as [input_data|].
  2: { destruct Hr as [Hno _]. exfalso.
       assert (is_usable env path = true) by (apply is_usable_usable; eauto).
       congruence. }
  destruct Hr as (d & ei' & gs' & -> & _ & Hread & Hei & Hgs).
  destruct Husable as (_ & d' & Hread' & Hei' & Hgs').
  assert (d' = d) as -> by congruence.
  assert (ei' = ei) as -> by congruence.
  assert (gs' = (pre ++ (k, v) :: post)%list) as -> by congruence.
  unfold unpack, bind at 1 2 3 4, lift, subscript, items, ret. rewrite Hei, Hgs.
  unfold bind at 1, log.
  match goal with
  | |- context [bind (for_in _ ?body _) _ ?s2] =>
      destruct (score_articles_spec (length (pre ++ (k, v) :: post)) pre Hdicts 0 [] s2)
        as (scored & s3 & Hloop & Hc' & Hw' & _);
      destruct (score_article_not_dict (length (pre ++ (k, v) :: post))
                  (0 + length pre) scored k v s3 Hv) as (s' & Hfail & Hc'' & Hw'')
  end.
  exists s'. split.
  - apply bind_raise. rewrite for_in_append. rewrite (bind_run _ _ _ _ _ Hloop).
    cbn [for_in]. by apply bind_raise.
  - cbn [calls written] in *. split; congruence.
Qed.

Lemma steered_unusable path s :
  is_usable env path = false ->
  exists s' m old,
    score_newts_summaries env path s = (inr PNone, s')
    /\ calls s' = calls s /\ written s' = written s
    /\ records s' = (records s ++ old ++ [(ERROR, m)])%list.
Proof.
  intros Hno. unfold score_newts_summaries.
  destruct (load_input_spec false env path s)
    as (r & s1 & new & Hrun & Hc & Hw & Hrec & Hr).
  rewrite (bind_run _ _ _ _ _ Hrun).
  destruct r as [input_data|].
  { destruct Hr as (d & ei & gs & _ & Husable & _).
    assert (is_usable env path = true) by (apply is_usable_usable; eauto).
    congruence. }
  destruct Hr as (_ & m & old & ->). exists s1, m, old. by rewrite Hrec.
Qed.

End Steered.

(** ** The prompted file *)

Section Prompted.
Import Prompted.
Variable env : environment.

Lemma dict_in_set k k' v (d : dict) :
  dict_in k' (dict_set k v d) = true <-> dict_in k' d = true \/ k' = k.
Proof.
  unfold dict_in. destruct (String.eqb_spec k k') as [->|Hne].
  - rewrite dict_get_set. split; auto.
  - rewrite dict_get_set_other by done. split; [auto | intros [?|?]; congruence].
Qed.

Lemma grows_same k (flat : dict) pn :
  (pn = true -> dict_in "neutral" flat = true) ->
  dict_in k flat = true ->
  grows [k] (flat, pn) (flat, pn).
Proof.
  intros Hinv Hk. unfold grows. cbn [fst snd]. repeat split; auto.
  intros [?|Hk'%list_elem_of_singleton]; [done | by subst].
Qed.

Lemma grows_absent k (flat : dict) pn :
  (pn = true -> dict_in "neutral" flat = true) ->
  grows [k] (flat, pn) (if dict_in k flat then flat else dict_set k PNone flat, pn).
Proof.
  intros Hinv. destruct (dict_in k flat) eqn:Hk; [by apply grows_same|].
  unfold grows. cbn [fst snd]. split; [done|]. split; [|split].
  - intros Hpn. apply dict_in_set. auto.
  - intros k'. rewrite dict_in_set, list_elem_of_singleton. done.
  - intros k' x Hget _. rewrite dict_get_set_other; [done|].
    intros Heq. subst k'. unfold dict_in in Hk. by rewrite Hget in Hk.
Qed.

Lemma grows_scored k x (flat : dict) pn :
  (pn = true -> dict_in "neutral" flat = true) ->
  (k =? "neutral")%string && pn = false ->
  negb (k =? "neutral")%string && dict_in k flat = false ->
  grows [k] (flat, pn)
    (dict_set k x flat, if (k =? "neutral")%string then true else pn).
Proof.
  intros Hinv Hfirst Hsecond. unfold grows. cbn [fst snd]. split; [|split; [|split]].
  - intros ->. by destruct (k =? "neutral")%string.
  - destruct (String.eqb_spec k "neutral") as [->|Hne].
    + intros _. apply dict_in_set. auto.
    + intros Hpn. apply dict_in_set. auto.
  - intros k'. rewrite dict_in_set, list_elem_of_singleton. done.
  - intros k' y Hget Hneutral. rewrite dict_get_set_other; [done|].
    intros Heq. subst k'. destruct (String.eqb_spec k "neutral") as [Hk|Hne].
    + by rewrite Hneutral in Hfirst.
    + unfold dict_in in Hsecond. by rewrite Hget in Hsecond.
Qed.

Lemma grows_nil (l : dict * bool) :
  (l.2 = true -> dict_in "neutral" l.1 = true) -> grows [] l l.
Proof.
  intros Hinv. unfold grows. repeat split; auto.
  intros [?|?%elem_of_nil]; done.
Qed.

Lemma grows_app ks1 ks2 (l l1 l2 : dict * bool) :
  grows ks1 l l1 -> grows ks2 l1 l2 -> grows (ks1 ++ ks2) l l2.
Proof.
  intros (Hpn1 & Hinv1 & Hin1 & Hget1) (Hpn2 & Hinv2 & Hin2 & Hget2).
  unfold grows. split; [auto|]. split; [auto|]. split.
  - intros k. rewrite Hin2, Hin1, elem_of_app. tauto.
  - intros k x Hget Hneutral. apply Hget2; [by apply Hget1|auto].
Qed.

Lemma score_variation_spec a b t1 t2 r1 r2 (flat : dict) pn k v s :
  (pn = true -> dict_in "neutral" flat = true) ->
  exists after s',
    score_variation env a b t1 t2 r1 r2 (flat, pn) (k, v) s = (inr after, s')
    /\ written s' = written s
    /\ grows [k] (flat, pn) after.
Proof.
  intros Hinv. unfold score_variation.
  destruct ((k =? "neutral")%string && pn) eqn:Hfirst.
  { eexists _, _. unfold bind, log, ret. split; [reflexivity|]. split; [done|].
    apply andb_true_iff in Hfirst as [->%String.eqb_eq ->]. apply grows_same; auto. }
  destruct (negb (k =? "neutral")%string && dict_in k flat) eqn:Hsecond.
  { eexists _, _. unfold bind, log, ret. split; [reflexivity|]. split; [done|].
    apply andb_true_iff in Hsecond as [_ Hk]. by apply grows_same. }
  destruct v as [| | | | | |d];
    try (eexists _, _; unfold bind, log, ret; split; [reflexivity|]; split; [done|];
         by apply grows_absent).
  unfold bind at 1, lift, get.
  destruct (match dict_get "summary" d with Some x => x | None => PNone end)
    as [| | | |text| |];
    try (eexists _, _; unfold bind, log, ret; split; [reflexivity|]; split; [done|];
         by apply grows_absent).
  unfold bind, log, call_scorer, ret. cbn [calls records written].
  destruct (score env (calls s) (ScoreIndividualText text t1 t2 r1 r2)).
  - eexists _, _. split; [reflexivity|]. split; [done|]. by apply grows_absent.
  - eexists _, _. split; [reflexivity|]. split; [done|]. by apply grows_scored.
Qed.

Lemma score_variations_spec a b t1 t2 r1 r2 (variations : dict) :
  forall (l : dict * bool) s,
  (l.2 = true -> dict_in "neutral" l.1 = true) ->
  exists after s',
    for_in variations (score_variation env a b t1 t2 r1 r2) l s = (inr after, s')
    /\ written s' = written s
    /\ grows (keys variations) l after.
Proof.
  induction variations as [|[k v] variations IH]; intros [flat pn] s Hinv.
  - exists (flat, pn), s. repeat split; auto. by apply grows_nil.
  - cbn [for_in].
    destruct (score_variation_spec a b t1 t2 r1 r2 flat pn k v s Hinv)
      as (l1 & s1 & Hrun & Hw & Hgrows).
    destruct (IH l1 s1) as (l2 & s2 & Hrest & Hw' & Hgrows').
    { apply Hgrows. }
    exists l2, s2. rewrite (bind_run _ _ _ _ _ Hrun).
    split; [exact Hrest|]. split; [congruence|].
    exact (grows_app [k] _ _ _ _ Hgrows Hgrows').
Qed.

Lemma score_behaviors_spec a t1 t2 r1 r2 (behaviors : dict) :
  forall (l : dict * bool) s,
  (l.2 = true -> dict_in "neutral" l.1 = true) ->
  exists after s',
    for_in behaviors (score_behavior env a t1 t2 r1 r2) l s = (inr after, s')
    /\ written s' = written s
    /\ grows (variation_keys behaviors) l after.
Proof.
  induction behaviors as [|[b v] behaviors IH]; intros l s Hinv.
  - exists l, s. repeat split; auto. by apply grows_nil.
  - cbn [for_in].
    assert (exists l1 s1,
      score_behavior env a t1 t2 r1 r2 l (b, v) s = (inr l1, s1)
      /\ written s1 = written s
      /\ grows (match v with PDict variations => keys variations | _ => [] end) l l1)
      as (l1 & s1 & Hrun & Hw & Hgrows).
    { unfold score_behavior.
      destruct v as [| | | | | |variations];
        try (eexists l, _; unfold bind, log, ret; split; [reflexivity|]; split; [done|];
             by apply grows_nil).
      by apply score_variations_spec. }
    destruct (IH l1 s1) as (l2 & s2 & Hrest & Hw' & Hgrows').
    { apply Hgrows. }
    exists l2, s2. rewrite (bind_run _ _ _ _ _ Hrun).
    split; [exact Hrest|]. split; [congruence|].
    exact (grows_app _ _ _ _ _ Hgrows Hgrows').
Qed.

Lemma prompted_article_dict total n (scored : dict) k article s :
  is_dict article = true ->
  exists x s',
    score_article env total (n, scored) (k, article) s
    = (inr (n + 1, dict_set k x scored), s')
    /\ written s' = written s
    /\ article_flattened (k, article) (k, x).
Proof.
  destruct article as [| | | | | |d]; try done. intros _.
  unfold score_article, article_flattened, summaries_of.
  unfold bind at 1 2 3 4 5 6. unfold log, lift, get. cbn [fst snd].
  assert (Hempty : forall k0, k0 ∈ keys [] <-> False).
  { intros k0. split; [by intros ?%elem_of_nil | done]. }
  destruct (dict_get "summaries" d) as [summaries|] eqn:Hsummaries.
  2: { eexists (PDict []), _. cbn [for_in]. unfold bind, ret. cbn [written].
       split; [reflexivity|]. split; [done|]. split; [done|].
       exists []. split; [done|]. intros k0. rewrite Hempty.
       unfold variation_keys. cbn [flat_map]. split; [done | by intros ?%elem_of_nil]. }
  destruct summaries as [| | | | | |behaviors];
    try (eexists (PDict []), _; unfold bind, log, ret; cbn [written];
         split; [reflexivity|]; split; [done|]; split; [done|];
         by exists []).
  match goal with
  | |- context [bind (for_in behaviors _ _) _ ?s1] =>
      destruct (score_behaviors_spec k
                  (match dict_get "tid1" d with Some x => x | None => PNone end)
                  (match dict_get "tid2" d with Some x => x | None => PNone end)
                  (match dict_get "original_summary1" d with Some x => x | None => PNone end)
                  (match dict_get "original_summary2" d with Some x => x | None => PNone end)
                  behaviors ([], false) s1)
        as ([flat pn] & s' & Hrun & Hw & Hgrows); [done|]
  end.
  exists (PDict flat), s'. rewrite (bind_run _ _ _ _ _ Hrun). unfold ret.
  split; [done|]. split; [exact Hw|]. split; [done|].
  exists flat. split; [done|]. intros k0.
  destruct Hgrows as (_ & _ & Hin & _). cbn [fst snd] in Hin.
  rewrite <- dict_in_keys, Hin. unfold dict_in. cbn [dict_get]. split; [|auto].
  by intros [?|?].
Qed.

Lemma prompted_article_not_dict total n (scored : dict) k article s :
  is_dict article = false ->
  exists s',
    score_article env total (n, scored) (k, article) s = (inl AttributeError, s')
    /\ calls s' = calls s /\ written s' = written s.
Proof.
  intros Hno. unfold score_article, bind, log, lift, get.
  destruct article; try done; by eexists.
Qed.

Lemma prompted_articles_spec total (articles : dict) :
  Forall (fun item => is_dict item.2 = true) articles ->
  forall n (scored : dict) s,
  exists scored' s',
    for_in articles (score_article env total) (n, scored) s
    = (inr (n + length articles, scored'), s')
    /\ written s' = written s
    /\ (NoDup (keys scored ++ keys articles) ->
        exists new, scored' = (scored ++ new)%list
                    /\ Forall2 article_flattened articles new).
Proof.
  induction 1 as [|[k article] articles Hdict _ IH]; intros n scored s.
  - exists scored, s. cbn [for_in ret length]. rewrite Nat.add_0_r.
    repeat split; eauto. intros _. exists []. by rewrite app_nil_r.
  - cbn [for_in].
    destruct (prompted_article_dict total n scored k article s Hdict)
      as (x & s1 & Hrun & Hw & Hx).
    destruct (IH (n + 1) (dict_set k x scored) s1) as (scored' & s' & Hrest & Hw' & Hnew).
    exists scored', s'. rewrite (bind_run _ _ _ _ _ Hrun).
    split. { rewrite Hrest. cbn [length]. do 3 f_equal. lia. }
    split; [congruence|].
    unfold keys in *. csimpl. intros Hnodup.
    assert (Hk : k ∉ scored.*1).
    { apply NoDup_app in Hnodup as (_ & Hdisj & _). intros Hin.
      apply (Hdisj _ Hin). apply elem_of_cons. by left. }
    pose proof (dict_set_absent k x scored Hk) as Hset. rewrite Hset in Hnew.
    destruct Hnew as (new & -> & Hall).
    { rewrite fmap_app, <- app_assoc. exact Hnodup. }
    exists ((k, x) :: new). split; [by rewrite <- app_assoc|].
    by constructor.
Qed.

Lemma prompted_run path ei (gs : dict) s :
  usable env path ei gs ->
  Forall (fun item => is_dict item.2 = true) gs ->
  exists scored s',
    score_newts_summaries env path s = (inr (output_data ei gs scored), s')
    /\ written s' = written s
    /\ (NoDup (keys gs) -> Forall2 article_flattened gs scored).
Proof.
  intros Husable Hdicts. unfold score_newts_summaries.
  destruct (load_input_spec true env path s)
    as (r & s1 & new & Hrun & Hc & Hw & _ & Hr).
  rewrite (bind_run _ _ _ _ _ Hrun).
  destruct r as [input_data|].
  2: { destruct Hr as [Hno _]. exfalso.
       assert (is_usable env path = true) by (apply is_usable_usable; eauto).
       congruence. }
  destruct Hr as (d & ei' & gs' & -> & _ & Hread & Hei & Hgs).
  destruct Husable as (_ & d' & Hread' & Hei' & Hgs').
  assert (d' = d) as -> by congruence.
  assert (ei' = ei) as -> by congruence.
  assert (gs' = gs) as -> by congruence.
  unfold unpack, bind at 1 2 3 4, lift, subscript, items, ret. rewrite Hei, Hgs.
  unfold bind at 1, log.
  match goal with
  | |- context [bind (for_in gs _ _) _ ?s2] =>
      destruct (prompted_articles_spec (length gs) gs Hdicts 0 [] s2)
        as (scored & s' & Hloop & Hw' & Hnew)
  end.
  rewrite (bind_run _ _ _ _ _ Hloop). unfold bind, log, ret.
  eexists scored, _. split; [reflexivity|]. cbn [calls written] in *.
  split; [congruence|].
  intros Hnodup. destruct (Hnew Hnodup) as (new' & -> & Hall). exact Hall.
Qed.

Lemma prompted_unusable path s :
  is_usable env path = false ->
  exists s' m old,
    score_newts_summaries env path s = (inr PNone, s')
    /\ calls s' = calls s /\ written s' = written s
    /\ records s' = (records s ++ old ++ [(ERROR, m)])%list.
Proof.
  intros Hno. unfold score_newts_summaries.
  destruct (load_input_spec true env path s)
    as (r & s1 & new & Hrun & Hc & Hw & Hrec & Hr).
  rewrite (bind_run _ _ _ _ _ Hrun).
  destruct r as [input_data|].
  { destruct Hr as (d & ei & gs & _ & Husable & _).
    assert (is_usable env path = true) by (apply is_usable_usable; eauto).
    congruence. }
  destruct Hr as (_ & m & old & ->). exists s1, m, old. by rewrite Hrec.
Qed.

Lemma score_behaviors_append a t1 t2 r1 r2 (pre post : dict) s :
  exists mid final s1 s2,
    for_in pre (score_behavior env a t1 t2 r1 r2) ([], false) s = (inr mid, s1)
    /\ for_in (pre ++ post)%list (score_behavior env a t1 t2 r1 r2) ([], false) s
       = (inr final, s2)
    /\ grows (variation_keys pre) ([], false) mid
    /\ grows (variation_keys post) mid final.
Proof.
  destruct (score_behaviors_spec a t1 t2 r1 r2 pre ([], false) s)
    as (mid & s1 & Hpre & _ & Hgrows); [done|].
  destruct (score_behaviors_spec a t1 t2 r1 r2 post mid s1)
    as (final & s2 & Hpost & _ & Hgrows'); [apply Hgrows|].
  exists mid, final, s1, s2. split; [exact Hpre|]. split; [|done].
  rewrite for_in_append. by rewrite (bind_run _ _ _ _ _ Hpre).
Qed.

End Prompted.

End ScoringFacts.

Import Json Scoring Inputs ScoringExamples ScoringFacts.

(** X17.  Both scoring functions return [None], with an ERROR record as the
    last one logged and without calling the scorer, whenever the input is not
    usable: the scorer cannot be set up, the file cannot be read or parsed, or
    what it holds is not a dict with the keys "experiment_information" and
    "generated_summaries", the latter a dict.  A list holding both key strings
    passes the membership tests and fails at the subscript, inside the same
    [try]. *)
Theorem unusable_input_gives_none (env : environment) (path : string) (s : state) :
  is_usable env path = false ->
  (exists s' m old,
     Steered.score_newts_summaries env path s = (inr PNone, s')
     /\ calls s' = calls s /\ written s' = written s
     /\ records s' = (records s ++ old ++ [(ERROR, m)])%list)
  /\ (exists s' m old,
        Prompted.score_newts_summaries env path s = (inr PNone, s')
        /\ calls s' = calls s /\ written s' = written s
        /\ records s' = (records s ++ old ++ [(ERROR, m)])%list).
Proof.
  intros Hno. split; [by apply steered_unusable | by apply prompted_unusable].
Qed.

Lemma unusable_input_gives_none_witness :
  (Steered.score_newts_summaries (scoring_environment None) "list.json" initial).1
  = inr PNone
  /\ (Prompted.score_newts_summaries (scoring_environment None) "list.json" initial).1
     = inr PNone.
Proof.
  destruct (unusable_input_gives_none (scoring_environment None) "list.json" initial)
    as [(s1 & m1 & old1 & H1 & _) (s2 & m2 & old2 & H2 & _)]; [reflexivity|].
  by rewrite H1, H2.
Defined.

(** X18.  Steered file: on a usable input whose articles are all dicts, the
    function returns the input's "experiment_information" and
    "generated_summaries" unchanged, and "scored_summaries" has one entry per
    article, in the input's order: [None] for an article whose "summaries" is
    not a dict, otherwise a dict with one entry per summary, in order: [None]
    for a summary that is not a string or for which the scorer raised, and
    otherwise what the scorer returned for it, called after the calls for the
    summaries and articles before it.  An exception of the scorer never
    leaves the function. *)
Theorem steered_scores_mirror_the_input
    (env : environment) (path : string) (ei : pyval) (gs : dict) (s : state) :
  usable env path ei gs ->
  Forall (fun item => is_dict item.2 = true) gs ->
  NoDup (keys gs) ->
  Forall (fun item => distinct_summary_keys item.2) gs ->
  exists s',
    Steered.score_newts_summaries env path s
    = (inr (output_data ei gs (article_scores env (calls s) gs)), s').
Proof.
  intros Husable Hdicts Hnodup Hdistinct.
  destruct (steered_run env path ei gs s Husable Hdicts)
    as (scored & s' & Hrun & _ & _ & Hall).
  exists s'. by rewrite Hrun, (Hall Hnodup Hdistinct).
Qed.

Lemma steered_scores_mirror_the_input_witness :
  exists s',
    Steered.score_newts_summaries (scoring_environment None)
      ("results/" ++ Steered.file_path) initial
    = (inr (output_data information steered_articles
              [("0", PDict [("-1.0", PDict [("characters", PInt 9)]);
                            ("0.0", PNone); ("1.0", PNone)]);
               ("1", PNone)]), s').
Proof.
  apply (steered_scores_mirror_the_input (scoring_environment None)
           ("results/" ++ Steered.file_path) information steered_articles initial).
  - split; [reflexivity|]. eexists. repeat split; reflexivity.
  - repeat constructor.
  - repeat (apply NoDup_cons_2;
            [intros H; apply list_elem_of_In in H; simpl in H; intuition discriminate|]).
    apply NoDup_nil_2.
  - repeat constructor; intros summaries [= <-];
      repeat (apply NoDup_cons_2;
              [intros H; apply list_elem_of_In in H; simpl in H; intuition discriminate|]);
      apply NoDup_nil_2.
Defined.

(** X19.  Steered file: on a usable input whose articles are all dicts, the
    scorer is called once for every summary that is a string, in the order of
    the articles and of their summaries, each time with the "tid1", "tid2",
    "summary1" and "summary2" of the summary's own article ([None] where the
    article lacks one); it is not called for anything else. *)
Theorem scorer_called_once_per_string_summary
    (env : environment) (path : string) (ei : pyval) (gs : dict) (s : state) :
  usable env path ei gs ->
  Forall (fun item => is_dict item.2 = true) gs ->
  calls (Steered.score_newts_summaries env path s).2
  = (calls s ++ flat_map (fun item => article_requests item.2) gs)%list.
Proof.
  intros Husable Hdicts.
  destruct (steered_run env path ei gs s Husable Hdicts)
    as (scored & s' & Hrun & Hcalls & _).
  by rewrite Hrun.
Qed.

Lemma scorer_called_once_per_string_summary_witness :
  calls (Steered.score_newts_summaries (scoring_environment None)
           ("results/" ++ Steered.file_path) initial).2
  = [ScoreIndividualText "a summary" (PInt 3) (PInt 7)
       (PStr "first reference") (PStr "second reference");
     ScoreIndividualText "unscorable" (PInt 3) (PInt 7)
       (PStr "first reference") (PStr "second reference")].
Proof.
  apply (scorer_called_once_per_string_summary (scoring_environment None)
           ("results/" ++ Steered.file_path) information steered_articles initial).
  - split; [reflexivity|]. eexists. repeat split; reflexivity.
  - repeat constructor.
Defined.

(** X20.  Steered file: an article that is not a dict is not skipped.  The
    [.get] on it raises AttributeError, which nothing catches: the function
    raises after having scored the articles before it, and returns none of
    their scores. *)
Theorem non_dict_article_raises_attribute_error
    (env : environment) (path : string) (ei : pyval) (pre post : dict)
    (k : string) (v : pyval) (s : state) :
  usable env path ei (pre ++ (k, v) :: post)%list ->
  Forall (fun item => is_dict item.2 = true) pre ->
  is_dict v = false ->
  exists s',
    Steered.score_newts_summaries env path s = (inl AttributeError, s')
    /\ calls s' = (calls s ++ flat_map (fun item => article_requests item.2) pre)%list
    /\ written s' = written s.
Proof. apply steered_raises. Qed.

Lemma non_dict_article_raises_attribute_error_witness :
  exists s',
    Steered.score_newts_summaries (scoring_environment None) "mixed.json" initial
    = (inl AttributeError, s')
    /\ calls s' = [ScoreIndividualText "a summary" PNone PNone PNone PNone]
    /\ written s' = [].
Proof.
  apply (non_dict_article_raises_attribute_error (scoring_environment None) "mixed.json"
           information
           [("0", PDict [("summaries", PDict [("1.0", PStr "a summary")])])]
           [("2", PDict [("summaries", PDict [("1.0", PStr "another summary")])])]
           "1" (PStr "an article") initial).
  - split; [reflexivity|]. eexists. repeat split; reflexivity.
  - repeat constructor.
  - reflexivity.
Defined.

(** X21.  Steered file, [main]: with both environment variables set and an
    unusable input, [main] does not stop at the [None] it gets back.  It goes
    on to open the output file: if that opens, it writes [None] (the JSON text
    null) to it and returns; if it does not, the OSError leaves [main] and
    nothing is written.  Either way the scorer is not called. *)
Theorem main_writes_null_for_unusable_input
    (env : environment) (input_json_path output_json_path : string) (s : state) :
  path_join (getenv env "NEWTS_SUMMARIES_PATH") Steered.file_path = inr input_json_path ->
  path_join (getenv env "SCORES_PATH") Steered.file_path = inr output_json_path ->
  is_usable env input_json_path = false ->
  exists s',
    calls s' = calls s
    /\ match open_output env output_json_path with
       | None =>
           Steered.main env s = (inr tt, s')
           /\ written s' = (written s ++ [(output_json_path, PNone)])%list
       | Some e =>
           Steered.main env s = (inl (OSError e), s')
           /\ written s' = written s
       end.
Proof.
  intros Hin Hout Hno.
  destruct (steered_unusable env input_json_path s Hno)
    as (s1 & m & old & Hrun & Hc & Hw & _).
  assert (Hmain : Steered.main env s = dump env output_json_path PNone s1).
  { unfold Steered.main. rewrite Hin, Hout.
    unfold bind at 1, lift. rewrite (bind_run _ _ _ _ _ Hrun). reflexivity. }
  rewrite Hmain. unfold dump. destruct (open_output env output_json_path) as [e|].
  - exists s1. by rewrite Hw.
  - eexists. split; [|split; [reflexivity|]]; cbn [calls written]; congruence.
Qed.

Lemma main_writes_null_for_unusable_input_witness :
  exists s',
    calls s' = []
    /\ Steered.main (no_scorer_environment (Some "scores/")) initial = (inr tt, s')
    /\ written s' = [("scores/" ++ Steered.file_path, PNone)].
Proof.
  destruct (main_writes_null_for_unusable_input (no_scorer_environment (Some "scores/"))
              ("results/" ++ Steered.file_path) ("scores/" ++ Steered.file_path) initial)
    as (s' & Hcalls & Hmain & Hwritten); [reflexivity | reflexivity | reflexivity |].
  exists s'. split; [exact Hcalls|]. split; [exact Hmain | exact Hwritten].
Defined.

(** X22.  Steered file, [main]: the output path is built only after the
    scoring.  With SCORES_PATH unset, [main] makes every call of the scorer
    and then raises TypeError at [os.path.join], writing nothing. *)
Theorem unset_scores_path_loses_the_scores
    (env : environment) (input_json_path : string) (ei : pyval) (gs : dict) (s : state) :
  path_join (getenv env "NEWTS_SUMMARIES_PATH") Steered.file_path = inr input_json_path ->
  getenv env "SCORES_PATH" = None ->
  usable env input_json_path ei gs ->
  Forall (fun item => is_dict item.2 = true) gs ->
  exists s',
    Steered.main env s = (inl TypeError, s')
    /\ calls s' = (calls s ++ flat_map (fun item => article_requests item.2) gs)%list
    /\ written s' = written s.
Proof.
  intros Hin Hout Husable Hdicts. unfold Steered.main. rewrite Hin, Hout.
  destruct (steered_run env input_json_path ei gs s Husable Hdicts)
    as (scored & s1 & Hrun & Hc & Hw & _).
  unfold bind at 1, lift. rewrite (bind_run _ _ _ _ _ Hrun).
  unfold bind, path_join. by exists s1.
Qed.

Lemma unset_scores_path_loses_the_scores_witness :
  exists s',
    Steered.main (scoring_environment None) initial = (inl TypeError, s')
    /\ calls s'
       = [ScoreIndividualText "a summary" (PInt 3) (PInt 7)
            (PStr "first reference") (PStr "second reference");
          ScoreIndividualText "unscorable" (PInt 3) (PInt 7)
            (PStr "first reference") (PStr "second reference")]
    /\ written s' = [].
Proof.
  apply (unset_scores_path_loses_the_scores (scoring_environment None)
           ("results/" ++ Steered.file_path) information steered_articles initial).
  - reflexivity.
  - reflexivity.
  - split; [reflexivity|]. eexists. repeat split; reflexivity.
  - repeat constructor.
Defined.

(** X23.  Prompted file: on a usable input whose articles are all dicts, the
    function returns the input's "experiment_information" and
    "generated_summaries" unchanged, and "scored_summaries" has one entry per
    article, in the input's order, each a dict (empty where the article's
    "summaries" is not a dict) whose keys are exactly the variation keys found
    under the article's behaviours: every variation met gets an entry, a score
    or [None]. *)
Theorem prompted_scores_are_flattened
    (env : environment) (path : string) (ei : pyval) (gs : dict) (s : state) :
  usable env path ei gs ->
  Forall (fun item => is_dict item.2 = true) gs ->
  NoDup (keys gs) ->
  exists scored s',
    Prompted.score_newts_summaries env path s = (inr (output_data ei gs scored), s')
    /\ Forall2 article_flattened gs scored.
Proof.
  intros Husable Hdicts Hnodup.
  destruct (prompted_run env path ei gs s Husable Hdicts)
    as (scored & s' & Hrun & _ & Hall).
  exists scored, s'. auto.
Qed.

Lemma prompted_scores_are_flattened_witness :
  exists scored s',
    Prompted.score_newts_summaries (scoring_environment None)
      ("results/" ++ Prompted.file_path) initial
    = (inr (output_data information prompted_articles scored), s')
    /\ Forall2 article_flattened prompted_articles scored.
Proof.
  apply (prompted_scores_are_flattened (scoring_environment None)
           ("results/" ++ Prompted.file_path) information prompted_articles initial).
  - split; [reflexivity|]. eexists. repeat split; reflexivity.
  - repeat constructor.
  - repeat (apply NoDup_cons_2;
            [intros H; apply list_elem_of_In in H; simpl in H; intuition discriminate|]).
    apply NoDup_nil_2.
Defined.

(** X24.  Prompted file: an entry of [flat_article_scores] is not replaced
    once it is there, whatever comes under later behaviours: processing
    [pre ++ post] goes through the locals left by [pre], and from there every
    entry stays as it is; for "neutral" this holds from the moment it has
    been scored (a [None] left by a failed attempt may still give way to a
    score).  The loops raise nothing. *)
Theorem scored_entries_are_kept
    (env : environment) (article_idx_str : string) (tid1 tid2 ref1 ref2 : pyval)
    (pre post : dict) (s : state) :
  exists mid final s1 s2,
    for_in pre (Prompted.score_behavior env article_idx_str tid1 tid2 ref1 ref2)
      ([], false) s = (inr mid, s1)
    /\ for_in (pre ++ post)%list
         (Prompted.score_behavior env article_idx_str tid1 tid2 ref1 ref2)
         ([], false) s = (inr final, s2)
    /\ grows (variation_keys pre) ([], false) mid
    /\ grows (variation_keys post) mid final.
Proof. apply score_behaviors_append. Qed.


